(** * A shallow embedding of the coredns-redis plugin

    Two source files are embedded:
    - [redis.go]: the aggregated layout (one hash per zone, one JSON value
      per label): location search, record synthesis, zone transfer and the
      zone scan ([Module Agg]);
    - the per-type row layout ([part_000], first copy of the file): rows
      [TTL CLASS TYPE data...] with a sibling decaying-TTL key
      ([Module Rows]), with its configuration setters and the dial options
      of [Connect] ([Module Setup]).

    Go strings are byte strings; they are modelled as [String.string]. *)

From Stdlib Require Import String Ascii List ZArith NArith Bool Lia.
From Stdlib Require Import Numbers.DecimalString.
Import ListNotations.
Open Scope string_scope.
Set Warnings "-register-all".

(** ** Go standard library helpers on byte strings *)
Module GoStr.

(** [strings.HasPrefix] *)
Definition HasPrefix (s pre : string) : bool := String.prefix pre s.

(** [strings.HasSuffix] *)
Definition HasSuffix (s suf : string) : bool :=
  (String.length suf <=? String.length s)%nat &&
  String.eqb (substring (String.length s - String.length suf)
                        (String.length suf) s) suf.

(** [strings.TrimPrefix] *)
Definition TrimPrefix (s pre : string) : string :=
  if HasPrefix s pre
  then substring (String.length pre) (String.length s - String.length pre) s
  else s.

(** [strings.TrimSuffix] *)
Definition TrimSuffix (s suf : string) : string :=
  if HasSuffix s suf
  then substring 0 (String.length s - String.length suf) s
  else s.

(** [strings.SplitAfterN(s, ".", 2)]: [Some (head, tail)] when [s] holds a
    dot ([head] ends with the first dot), [None] when the result has a single
    element. *)
Fixpoint SplitAfterDot (s : string) : option (string * string) :=
  match s with
  | EmptyString => None
  | String c r =>
      if Ascii.eqb c "."%char then Some (String c EmptyString, r)
      else match SplitAfterDot r with
           | Some (h, t) => Some (String c h, t)
           | None => None
           end
  end.

(** [strconv.Atoi] on a 64-bit platform: an optional sign and one or more
    decimal digits, in the range of [int64]; [None] is the returned error. *)
Definition digit_val (c : ascii) : option Z :=
  let n := nat_of_ascii c in
  if ((48 <=? n) && (n <=? 57))%nat then Some (Z.of_nat (n - 48)) else None.

Fixpoint digits_val (s : string) (acc : Z) : option Z :=
  match s with
  | EmptyString => Some acc
  | String c r =>
      match digit_val c with
      | Some d => digits_val r (acc * 10 + d)%Z
      | None => None
      end
  end.

Definition Atoi (s : string) : option Z :=
  let '(neg, body) :=
    match s with
    | String c r =>
        if Ascii.eqb c "-"%char then (true, r)
        else if Ascii.eqb c "+"%char then (false, r)
        else (false, s)
    | EmptyString => (false, s)
    end in
  if String.eqb body "" then None
  else match digits_val body 0 with
       | None => None
       | Some v =>
           let v' := if neg then (- v)%Z else v in
           if ((- 2 ^ 63 <=? v') && (v' <=? 2 ^ 63 - 1))%Z then Some v' else None
       end.

(** Decimal rendering of an integer argument, as the Redis client sends it. *)
Definition Z_to_string (x : Z) : string := NilEmpty.string_of_int (Z.to_int x).

(** [dns.IsFqdn]: a trailing dot that is not escaped, i.e. preceded by an
    even number of backslashes. *)
Fixpoint leading_backslashes (l : list ascii) : nat :=
  match l with
  | c :: r => if Ascii.eqb c "\"%char then S (leading_backslashes r) else O
  | [] => O
  end.

Definition IsFqdn (s : string) : bool :=
  match rev (list_ascii_of_string s) with
  | c :: r => Ascii.eqb c "."%char && Nat.even (leading_backslashes r)
  | [] => false
  end.

(** [dns.Fqdn] *)
Definition Fqdn (s : string) : string := if IsFqdn s then s else s ++ ".".

(** Membership in a Go [map[string]...] used as a set. *)
Definition mem (k : string) (m : list string) : bool :=
  existsb (String.eqb k) m.

(** The outcomes of a Go call: a value, a returned [error], or a panic. *)
Inductive Outcome (T : Type) := Ok (a : T) | Err (e : string) | Panic (msg : string).
Arguments Ok {T}. Arguments Err {T}. Arguments Panic {T}.

Definition is_ok {T} (o : Outcome T) : bool := match o with Ok _ => true | _ => false end.
Definition is_panic {T} (o : Outcome T) : bool :=
  match o with Panic _ => true | _ => false end.

End GoStr.
Import GoStr.

(** ** The aggregated layout ([redis.go]) *)
Module Agg.

(** [type Zone struct { Name string; Locations map[string]struct{} }];
    the map is a list of its keys, in the order a [range] visits them. *)
Record Zone := mkZone { Name : string; Locations : list string }.

(** [keyExists] *)
Definition keyExists (key : string) (z : Zone) : bool := mem key (Locations z).

(** [keyMatches]: some location has [key] as a (byte) suffix. *)
Definition keyMatches (key : string) (z : Zone) : bool :=
  existsb (fun value => HasSuffix value key) (Locations z).

(** [splitQuery] *)
Definition splitQuery (query : string) : string * string * bool :=
  if String.eqb query "" then ("", "", false)
  else match SplitAfterDot query with
       | Some (_, closestEncloser) =>
           (closestEncloser, "*." ++ closestEncloser, true)
       | None => ("", "*", true)
       end.

(** The [for ok { ... }] loop of [findLocation]. The loop terminates because
    every [splitQuery] shortens the encloser ([splitQuery_shorter] below);
    [fuel] is the length bound. *)
Fixpoint searchLoop (fuel : nat) (z : Zone)
         (closestEncloser sourceOfSynthesis : string) (ok : bool) : string :=
  match fuel with
  | O => ""
  | S fuel' =>
      if ok then
        let ceExists := keyMatches closestEncloser z || keyExists closestEncloser z in
        let ssExists := keyExists sourceOfSynthesis z in
        if ceExists then (if ssExists then sourceOfSynthesis else "")
        else let '(ce, ss, ok') := splitQuery closestEncloser in
             searchLoop fuel' z ce ss ok'
      else ""
  end.

(** [findLocation] *)
Definition findLocation (query : string) (z : Zone) : string :=
  if String.eqb query (Name z) then query
  else
    let query := TrimSuffix query ("." ++ Name z) in
    if keyExists query z then query
    else let '(ce, ss, ok) := splitQuery query in
         searchLoop (S (String.length query)) z ce ss ok.

(** The constant [defaultTtl]. *)
Definition defaultTtl : N := 360.

(** The plugin state read by the synthesizers. [pool] is what
    [redis.Pool.Get()] hands out ([None] for a nil connection). *)
Record Redis {Conn : Type} := mkRedis {
  keyPrefix : string;
  keySuffix : string;
  Ttl : N;
  pool : option Conn
}.
Arguments Redis : clear implicits.
Arguments mkRedis {Conn}.

(** [minTtl] ([uint32] values as [N]). *)
Definition minTtl {C} (redis : Redis C) (ttl : N) : N :=
  if (Ttl redis =? 0)%N && (ttl =? 0)%N then defaultTtl
  else if (Ttl redis =? 0)%N then ttl
  else if (ttl =? 0)%N then Ttl redis
  else if (Ttl redis <? ttl)%N then Ttl redis
  else ttl.

(** The loop of [split255]: [p, i] are the slice bounds; [fuel] bounds the
    number of iterations (one more than [len(s)/255] suffices). *)
Fixpoint split255_loop (fuel : nat) (s : string) (p i : nat) (sx : list string)
  : list string :=
  match fuel with
  | O => sx
  | S fuel' =>
      if (i <=? String.length s)%nat
      then split255_loop fuel' s (p + 255) (i + 255) (sx ++ [substring p (i - p) s])
      else sx ++ [substring p (String.length s - p) s]
  end.

(** [split255] *)
Definition split255 (s : string) : list string :=
  if (String.length s <? 255)%nat then [s]
  else split255_loop (S (String.length s)) s 0 255 [].

(** *** Records, replies and resource records

    The [Record] struct is declared outside [redis.go]; its fields are the
    ones [redis.go] reads. A [net.IP] is kept as its text, [nil] as [None]. *)
Record AddrRec := mkAddr { Ip : option string; addr_ttl : N }.
Record HostRec := mkHost { Host : string; host_ttl : N }.
Record TextRec := mkText { Text : string; text_ttl : N }.
Record MXRec := mkMX { mx_Host : string; Preference : N; mx_ttl : N }.
Record SRVRec := mkSRV { Target : string; Weight : N; Port : N; Priority : N;
                         srv_ttl : N }.
Record CAARec := mkCAA { Flag : N; Tag : string; Value : string }.
Record SOARec := mkSOA { soa_ttl : N; soa_Ns : string; MBox : string;
                         soa_Refresh : N; soa_Retry : N; soa_Expire : N;
                         soa_MinTtl : N }.
Record Record := mkRecord {
  rec_A : list AddrRec; rec_AAAA : list AddrRec; rec_CNAME : list HostRec;
  rec_TXT : list TextRec; rec_NS : list HostRec; rec_MX : list MXRec;
  rec_SRV : list SRVRec; rec_CAA : list CAARec; rec_SOA : SOARec }.

(** The zero value of [SOA] in a decoded [Record]. *)
Definition emptySOA : SOARec := mkSOA 0 "" "" 0 0 0 0.

(** Replies of the Redis client ([interface{}] values) and the outcome of
    [conn.Do]. *)
Inductive Reply :=
| RNil | RBulk (s : string) | RStatus (s : string) | RInt (z : Z)
| RArr (l : list Reply).
Inductive DoResult := DoOk (r : Reply) | DoErr (e : string).

(** A connection: the reply of the backend to each command line. *)
Record Conn := mkConn { Do : list string -> DoResult }.

(** [redisCon.String(reply, nil)]: [None] is the returned error ([ErrNil]
    for a nil reply). *)
Definition ReplyString (r : Reply) : option string :=
  match r with
  | RBulk s | RStatus s => Some s
  | _ => None
  end.

(** [dns.RR] values built by the synthesizers. *)
Inductive RRType := TypeA | TypeAAAA | TypeCNAME | TypeTXT | TypeNS | TypeMX
                  | TypeSRV | TypeSOA | TypeCAA.
Definition ClassINET : N := 1.
Record RR_Header := mkHdr { hName : string; Rrtype : RRType; Class : N;
                            hTtl : N }.
Inductive RData :=
| DA (ip : string) | DAAAA (ip : string) | DCNAME (target : string)
| DTXT (txt : list string) | DNS (ns : string) | DMX (mx : string) (pref : N)
| DSRV (target : string) (weight port priority : N)
| DSOA (ns mbox : string) (serial refresh retry expire minttl : N)
| DCAA (flag : N) (tag value : string).
Record RR := mkRR { Hdr : RR_Header; Data : RData }.

Section Synthesis.

(** [json.Unmarshal] into a [Record]; [None] is a decoding error. *)
Variable json_unmarshal : string -> option Record.
(** The value of [uint32(time.Now().Unix())] read by [serial()]. *)
Variable now : N.

(** [get]: [None] is the nil [*Record]. *)
Definition get (redis : Redis Conn) (key : string) (z : Zone) : option Record :=
  match pool redis with
  | None => None
  | Some conn =>
      let label := if String.eqb key (Name z) then "@" else key in
      let redisKey := keyPrefix redis ++ Name z ++ keySuffix redis in
      match Do conn ["HGET"; redisKey; label] with
      | DoErr _ => None
      | DoOk reply =>
          match ReplyString reply with
          | None => None
          | Some val => json_unmarshal val
          end
      end
  end.

(** [save]: the returned [error], [None] for nil. *)
Definition save (redis : Redis Conn) (zone subdomain value : string) : option string :=
  match pool redis with
  | None => None
  | Some conn =>
      match Do conn ["HSET"; keyPrefix redis ++ zone ++ keySuffix redis; subdomain; value] with
      | DoErr e => Some e
      | DoOk _ => None
      end
  end.

Definition hdr (redis : Redis Conn) (name : string) (t : RRType) (ttl : N) : RR_Header :=
  mkHdr (Fqdn name) t ClassINET (minTtl redis ttl).

(** [A] *)
Definition A (redis : Redis Conn) (name : string) (z : Zone) (record : option Record)
  : list RR * list RR :=
  match record with
  | None => ([], [])
  | Some r =>
      (flat_map (fun a => match Ip a with
                          | None => []
                          | Some ip => [mkRR (hdr redis name TypeA (addr_ttl a)) (DA ip)]
                          end) (rec_A r), [])
  end.

(** [AAAA] *)
Definition AAAA (redis : Redis Conn) (name : string) (z : Zone) (record : option Record)
  : list RR * list RR :=
  match record with
  | None => ([], [])
  | Some r =>
      (flat_map (fun a => match Ip a with
                          | None => []
                          | Some ip => [mkRR (hdr redis name TypeAAAA (addr_ttl a)) (DAAAA ip)]
                          end) (rec_AAAA r), [])
  end.

(** [CNAME] *)
Definition CNAME (redis : Redis Conn) (name : string) (z : Zone) (record : option Record)
  : list RR * list RR :=
  match record with
  | None => ([], [])
  | Some r =>
      (flat_map (fun c => if String.eqb (Host c) "" then []
                          else [mkRR (hdr redis name TypeCNAME (host_ttl c)) (DCNAME (Fqdn (Host c)))])
                (rec_CNAME r), [])
  end.

(** [TXT] *)
Definition TXT (redis : Redis Conn) (name : string) (z : Zone) (record : option Record)
  : list RR * list RR :=
  match record with
  | None => ([], [])
  | Some r =>
      (flat_map (fun t => if String.eqb (Text t) "" then []
                          else [mkRR (hdr redis name TypeTXT (text_ttl t)) (DTXT (split255 (Text t)))])
                (rec_TXT r), [])
  end.

(** [hosts]: the glue records of a target host. *)
Definition hosts (redis : Redis Conn) (name : string) (z : Zone) : list RR :=
  let location := findLocation name z in
  if String.eqb location "" then []
  else let record := get redis location z in
       (fst (A redis name z record) ++ fst (AAAA redis name z record)
        ++ fst (CNAME redis name z record))%list.

(** The loop shared by [NS], [MX] and [SRV]: one answer per entry with a
    non-empty target, and the target's glue as extras. *)
Fixpoint withGlue {T} (redis : Redis Conn) (z : Zone) (target : T -> string)
         (mk : T -> RR) (l : list T) : list RR * list RR :=
  match l with
  | [] => ([], [])
  | x :: l' =>
      let '(ans, ext) := withGlue redis z target mk l' in
      if String.eqb (target x) "" then (ans, ext)
      else (mk x :: ans, hosts redis (target x) z ++ ext)%list
  end.

(** [NS] *)
Definition NS (redis : Redis Conn) (name : string) (z : Zone) (record : option Record)
  : list RR * list RR :=
  match record with
  | None => ([], [])
  | Some r =>
      withGlue redis z Host
        (fun n => mkRR (hdr redis name TypeNS (host_ttl n)) (DNS (Host n))) (rec_NS r)
  end.

(** [MX] *)
Definition MX (redis : Redis Conn) (name : string) (z : Zone) (record : option Record)
  : list RR * list RR :=
  match record with
  | None => ([], [])
  | Some r =>
      withGlue redis z mx_Host
        (fun m => mkRR (hdr redis name TypeMX (mx_ttl m)) (DMX (mx_Host m) (Preference m)))
        (rec_MX r)
  end.

(** [SRV] *)
Definition SRV (redis : Redis Conn) (name : string) (z : Zone) (record : option Record)
  : list RR * list RR :=
  match record with
  | None => ([], [])
  | Some r =>
      withGlue redis z Target
        (fun s => mkRR (hdr redis name TypeSRV (srv_ttl s))
                       (DSRV (Target s) (Weight s) (Port s) (Priority s)))
        (rec_SRV r)
  end.

(** [SOA] *)
Definition SOA (redis : Redis Conn) (name : string) (z : Zone) (record : option Record)
  : list RR * list RR :=
  match record with
  | None => ([], [])
  | Some r =>
      let soa := rec_SOA r in
      if String.eqb (soa_Ns soa) "" then
        ([mkRR (mkHdr (Fqdn name) TypeSOA ClassINET (Ttl redis))
               (DSOA ("ns1." ++ name) ("hostmaster." ++ name) now 86400 7200 3600 (Ttl redis))], [])
      else
        ([mkRR (mkHdr (Fqdn (Name z)) TypeSOA ClassINET (minTtl redis (soa_ttl soa)))
               (DSOA (soa_Ns soa) (MBox soa) now (soa_Refresh soa) (soa_Retry soa)
                     (soa_Expire soa) (soa_MinTtl soa))], [])
  end.

(** [CAA]: the header is built without a [Ttl] field, so it is 0. *)
Definition CAA (redis : Redis Conn) (name : string) (z : Zone) (record : option Record)
  : list RR * list RR :=
  match record with
  | None => ([], [])
  | Some r =>
      (flat_map (fun c => if String.eqb (Value c) "" || String.eqb (Tag c) "" then []
                          else [mkRR (mkHdr (Fqdn name) TypeCAA ClassINET 0)
                                     (DCAA (Flag c) (Tag c) (Value c))])
                (rec_CAA r), [])
  end.

(** The body of the [range z.Locations] loop of [AXFR], on the accumulators
    [(soa, answers, extras)]. *)
Definition axfrStep (redis : Redis Conn) (z : Zone)
           (acc : list RR * list RR * list RR) (key : string) : list RR * list RR * list RR :=
  let '(soa, answers, extras) := acc in
  if String.eqb key "@" then
    let location := findLocation (Name z) z in
    let record := get redis location z in
    (fst (SOA redis (Name z) z record), answers, extras)
  else
    let fqdnKey := Fqdn key ++ Name z in
    let location := findLocation fqdnKey z in
    let record := get redis location z in
    let syn := fun f : Redis Conn -> string -> Zone -> option Record -> list RR * list RR =>
                 f redis fqdnKey z record in
    let all := [syn A; syn AAAA; syn CNAME; syn MX; syn SRV; syn TXT] in
    (soa, answers ++ flat_map fst all, extras ++ flat_map snd all)%list.

(** [AXFR] *)
Definition AXFR (redis : Redis Conn) (z : Zone) : list RR :=
  let '(soa, answers, extras) := fold_left (axfrStep redis z) (Locations z) ([], [], []) in
  (soa ++ answers ++ extras ++ soa)%list.

End Synthesis.

(** *** Zone enumeration *)

(** [decodeScanReply]: the type assertions of the source panic on a reply
    of another shape. *)
Fixpoint scanKeys (values : list Reply) : Outcome (list string) :=
  match values with
  | [] => Ok []
  | RArr redisKeys :: rest =>
      let fix keys (l : list Reply) : Outcome (list string) :=
        match l with
        | [] => Ok []
        | RBulk k :: l' => match keys l' with Ok ks => Ok (k :: ks) | o => o end
        | _ :: _ => Panic "interface conversion: interface {} is not []uint8"
        end in
      match keys redisKeys, scanKeys rest with
      | Ok ks, Ok ks' => Ok (ks ++ ks')%list
      | Ok _, o => o
      | o, _ => o
      end
  | _ :: _ => Panic "interface conversion: interface {} is not []interface {}"
  end.

Definition decodeScanReply (reply : Reply) : Outcome (Z * list string) :=
  match reply with
  | RArr (RBulk cursorBytes :: rest) =>
      match Atoi cursorBytes with
      | None => Err "strconv.Atoi: invalid syntax"
      | Some cursor =>
          match scanKeys rest with
          | Ok keys => Ok (cursor, keys)
          | Err e => Err e
          | Panic m => Panic m
          end
      end
  | RArr [] => Panic "index out of range [0] with length 0"
  | RArr (_ :: _) => Panic "interface conversion: interface {} is not []uint8"
  | _ => Panic "interface conversion: interface {} is not []interface {}"
  end.

(** The inner [range scanReply.keys] loop of [LoadZones], on [keysSeen] and
    [zones]. *)
Fixpoint addZones (keyPrefix keySuffix : string) (keys keysSeen zones : list string)
  : list string * list string :=
  match keys with
  | [] => (keysSeen, zones)
  | zone :: keys' =>
      if mem zone keysSeen then addZones keyPrefix keySuffix keys' keysSeen zones
      else
        let zone := TrimPrefix zone keyPrefix in
        let zone := TrimPrefix zone keySuffix in
        addZones keyPrefix keySuffix keys' (zone :: keysSeen) (zones ++ [zone])%list
  end.

(** The [SCAN] loop of [LoadZones]. The Go loop runs until the backend
    answers cursor 0; [fuel] bounds the number of [SCAN] calls modelled
    (running out of it is reported as [Err]). *)
Fixpoint scanLoop (fuel : nat) (conn : Conn) (keyPrefix keySuffix : string)
         (cursor : Z) (keysSeen zones : list string) : Outcome (list string) :=
  match fuel with
  | O => Err "SCAN did not reach cursor 0"
  | S fuel' =>
      let matchPattern := keyPrefix ++ "*" ++ keySuffix in
      match Do conn ["SCAN"; Z_to_string cursor; "MATCH"; matchPattern; "COUNT"; "1000"] with
      | DoErr e => Err e
      | DoOk reply =>
          match decodeScanReply reply with
          | Err e => Err e
          | Panic m => Panic m
          | Ok (cursor', keys) =>
              let '(keysSeen', zones') := addZones keyPrefix keySuffix keys keysSeen zones in
              if (cursor' =? 0)%Z then Ok zones'
              else scanLoop fuel' conn keyPrefix keySuffix cursor' keysSeen' zones'
          end
      end
  end.

(** [LoadZones]: [Ok zones] is the value stored in [redis.Zones]; on [Err]
    the function returned early and [redis.Zones] is left as it was. *)
Definition LoadZones (fuel : nat) (redis : Redis Conn) : Outcome (list string) :=
  match pool redis with
  | None => Err "error connecting to redis"
  | Some conn => scanLoop fuel conn (keyPrefix redis) (keySuffix redis) 0 [] []
  end.

(** [redisCon.Strings(reply, nil)]: an array whose elements are strings
    (a nil element gives ""); [None] is the returned error. *)
Fixpoint strings_elems (l : list Reply) : option (list string) :=
  match l with
  | [] => Some []
  | x :: l' =>
      match x, strings_elems l' with
      | RBulk s, Some t | RStatus s, Some t => Some (s :: t)
      | RNil, Some t => Some ("" :: t)
      | _, _ => None
      end
  end.

Definition Strings (r : Reply) : option (list string) :=
  match r with
  | RArr l => strings_elems l
  | _ => None
  end.

(** [z.Locations[val] = struct{}{}]: inserting a key present already leaves
    the map as it is. *)
Definition insertLocation (locs : list string) (val : string) : list string :=
  if mem val locs then locs else (locs ++ [val])%list.

(** [load]: [None] is the nil [*Zone]. *)
Definition load (redis : Redis Conn) (zone : string) : option Zone :=
  match pool redis with
  | None => None
  | Some conn =>
      match Do conn ["HKEYS"; keyPrefix redis ++ zone ++ keySuffix redis] with
      | DoErr _ => None
      | DoOk reply =>
          match Strings reply with
          | None => None
          | Some vals => Some (mkZone zone (fold_left insertLocation vals []))
          end
      end
  end.

End Agg.

(** ** The per-type row layout ([part_000], lines 1-426) *)
Module Rows.

(** [redis.Key]: the key prefix only. *)
Record Redis := mkRedis { keyPrefix : string; keySuffix : string }.
Definition Key (redis : Redis) (name : string) : string := keyPrefix redis ++ name.

(** The backend as the code sees it: each key's value and expiry ([None]
    for a key without expiry), whether commands fail (a broken connection),
    and the [SET] command lines sent so far. *)
Record Store := mkStore {
  db : string -> option (string * option Z);
  down : bool;
  sent : list (list string)
}.

(** [GET] read through [redisCon.Scan] into a [string]: a nil reply leaves
    the string empty. *)
Definition GET (st : Store) (key : string) : string :=
  match db st key with Some (v, _) => v | None => "" end.

(** [TTL]: -2 for a missing key, -1 for a key without expiry. *)
Definition TTL (st : Store) (key : string) : Z :=
  match db st key with
  | None => (-2)%Z
  | Some (_, None) => (-1)%Z
  | Some (_, Some t) => t
  end.

(** [SET key value EX seconds]; the backend refuses a non-positive expiry. *)
Definition SET_EX (st : Store) (key : string) (value seconds : N) : Outcome Store :=
  let cmd := ["SET"; key; Z_to_string (Z.of_N value); "EX"; Z_to_string (Z.of_N seconds)] in
  if down st then Err "connection closed"
  else if (seconds =? 0)%N then Err "ERR invalid expire time in 'set' command"
  else Ok (mkStore (fun k => if String.eqb k key
                             then Some (Z_to_string (Z.of_N value), Some (Z.of_N seconds))
                             else db st k)
                   (down st) (sent st ++ [cmd])%list).

(** A computation on the connection: explicit state passing with the Go
    outcomes. *)
Definition M (T : Type) := Store -> Outcome (T * Store).

(** [uint32(x)] of a Go [int]. *)
Definition uint32 (x : Z) : N := Z.to_N (x mod 2 ^ 32).

(** [TypeNone] is the zero value of a header's [Rrtype]. *)
Inductive RRType := TypeNone | TypeA | TypeNS | TypeSOA.
Definition ClassINET : N := 1.
Record RR_Header := mkHdr { hName : string; Rrtype : RRType; Class : N; hTtl : N }.
Inductive RData :=
| RA (ip : string)
| RNS (ns : string)
| RSOA (ns mbox : string) (serial refresh retry expire minttl : N).
Record RR := mkRR { Hdr : RR_Header; Data : RData }.

(** [answer.Header().Ttl = t] *)
Definition setTtl (t : N) (r : RR) : RR :=
  mkRR (mkHdr (hName (Hdr r)) (Rrtype (Hdr r)) (Class (Hdr r)) t) (Data r).

(** [strings.Fields] on ASCII text. *)
Definition is_space (c : ascii) : bool :=
  let n := nat_of_ascii c in
  (n =? 32)%nat || ((9 <=? n) && (n <=? 13))%nat.

Fixpoint fields_aux (l : list ascii) (cur : list ascii) : list string :=
  match l with
  | [] => match cur with [] => [] | _ => [string_of_list_ascii (rev cur)] end
  | c :: l' =>
      if is_space c then
        match cur with
        | [] => fields_aux l' []
        | _ => string_of_list_ascii (rev cur) :: fields_aux l' []
        end
      else fields_aux l' (c :: cur)
  end.

Definition Fields (s : string) : list string := fields_aux (list_ascii_of_string s) [].

(** [fields[i]]: out of range is a panic. *)
Definition index (fields : list string) (i : nat) : Outcome string :=
  match nth_error fields i with
  | Some f => Ok f
  | None => Panic "runtime error: index out of range"
  end.

(** [parseA]: one record per address ([net.ParseIP] is kept as the text). *)
Definition parseA (ips : list string) (recordName : string) (header : RR_Header) : list RR :=
  map (fun ip => mkRR (mkHdr recordName TypeA (Class header) (hTtl header)) (RA ip)) ips.

(** [parseNS]; [getAdditionalRecords] is passed in. *)
Fixpoint parseNS (hosts : list string) (zoneName : string) (header : RR_Header)
         (getAdditionalRecords : string -> M (list RR)) : M (list RR * list RR) :=
  fun st =>
    match hosts with
    | [] => Ok (([], []), st)
    | host :: hosts' =>
        let r := mkRR (mkHdr zoneName TypeNS (Class header) (hTtl header)) (RNS host) in
        if negb (IsFqdn host) then Err ("host " ++ host ++ " musr be fully qualified")
        else match getAdditionalRecords host st with
             | Err e => Err e
             | Panic m => Panic m
             | Ok (additional, st1) =>
                 match parseNS hosts' zoneName header getAdditionalRecords st1 with
                 | Ok ((ans, ext), st2) => Ok ((r :: ans, additional ++ ext)%list, st2)
                 | Err e => Err e
                 | Panic m => Panic m
                 end
             end
    end.

(** Sequencing of Go outcomes. *)
Definition bindO {T U} (o : Outcome T) (f : T -> Outcome U) : Outcome U :=
  match o with
  | Ok a => f a
  | Err e => Err e
  | Panic m => Panic m
  end.
Local Notation "x <- o ;; k" := (bindO o (fun x => k))
  (at level 61, o at next level, right associativity).

(** [strconv.Atoi(fields[i])] *)
Definition atoiAt (fields : list string) (i : nat) : Outcome Z :=
  f <- index fields i ;;
  match Atoi f with
  | Some x => Ok x
  | None => Err ("strconv.Atoi: parsing " ++ f ++ ": invalid syntax")
  end.

(** [parseSOA] *)
Definition parseSOA (fields : list string) (zoneName : string) (header : RR_Header)
           (getAdditionalRecords : string -> M (list RR)) : M (list RR * list RR) :=
  fun st =>
    ns <- index fields 0 ;;
    mbox <- index fields 1 ;;
    let mbox := if IsFqdn mbox then mbox else mbox ++ "." ++ zoneName in
    serial <- atoiAt fields 2 ;;
    refresh <- atoiAt fields 3 ;;
    retry <- atoiAt fields 4 ;;
    expire <- atoiAt fields 5 ;;
    minttl <- atoiAt fields 6 ;;
    let r := mkRR (mkHdr zoneName TypeSOA (Class header) (hTtl header))
                  (RSOA ns mbox (uint32 serial) (uint32 refresh) (uint32 retry)
                        (uint32 expire) (uint32 minttl)) in
    res <- getAdditionalRecords ns st ;;
    let '(additional, st1) := res in
    Ok (([r], additional), st1).

(** [parseRecordValuesFromString] *)
Definition parseRecordValuesFromString (recordType recordName rData : string)
           (getAdditionalRecords : string -> M (list RR)) : M (list RR * list RR) :=
  fun st =>
    let fields := Fields rData in
    if (length fields <? 4)%nat
    then Err ("error parsing RData for " ++ recordType ++ "/" ++ recordName
              ++ ": invalid number of elements")
    else
      let f2 := nth 2 fields "" in
      if negb (String.eqb recordType f2)
      then Err ("error: mismatch record type for " ++ recordName)
      else
        match Atoi (nth 0 fields "") with
        | None => Err ("error parsing TTL literal '" ++ nth 0 fields "" ++ "'")
        | Some ttl =>
            let header := mkHdr "" TypeNone ClassINET (uint32 ttl) in
            if String.eqb recordType "A" then
              Ok ((parseA (skipn 3 fields) recordName header, []), st)
            else if String.eqb recordType "NS" then
              parseNS (skipn 3 fields) recordName header getAdditionalRecords st
            else if String.eqb recordType "SOA" then
              parseSOA (skipn 3 fields) recordName header getAdditionalRecords st
            else Err ("unknown record type " ++ recordType)
        end.

(** [getAdditionalRecords], over the [LoadZoneRecords] it calls. *)
Definition getAdditionalRecords (load : string -> string -> M (list RR * list RR))
           (recordName : string) : M (list RR) :=
  fun st =>
    res <- load "A" recordName st ;;
    let '((answers, extras), st1) := res in
    match extras with
    | [] => Ok (answers, st1)
    | _ :: _ => Err ("unexpected additional resources for A/" ++ recordName)
    end.

(** [LoadZoneRecords], with the nesting depth of its recursion through
    [getAdditionalRecords] made explicit: a lookup of type [A] never calls
    [getAdditionalRecords] ([parse_A_no_glue] below), so depth 2 is the
    function of the source ([LoadZoneRecords]). *)
Fixpoint LoadZoneRecords_at (depth : nat) (redis : Redis) (recordType recordName : string)
  : M (list RR * list RR) :=
  fun st =>
    let glue : string -> M (list RR) :=
      match depth with
      | O => fun _ _ => Err "glue lookup nested too deep"
      | S d => getAdditionalRecords (LoadZoneRecords_at d redis)
      end in
    let keyName := recordType ++ "/" ++ recordName in
    let ttlKeyName := keyName ++ ":ttl" in
    (* MULTI; GET key; TTL ttlKey; EXEC *)
    if down st then Err "connection closed"
    else
      let rData := GET st (Key redis keyName) in
      let remainingTtl := TTL st (Key redis ttlKeyName) in
      if String.eqb rData "" then Err ("no RData for " ++ keyName)
      else
        res <- parseRecordValuesFromString recordType recordName rData glue st ;;
        let '((answers, extras), st1) := res in
        if (remainingTtl =? -2)%Z then
          match answers with
          | [] => Panic "runtime error: index out of range [0] with length 0"
          | a0 :: _ =>
              let newTtl := hTtl (Hdr a0) in
              match SET_EX st1 (Key redis ttlKeyName) newTtl newTtl with
              | Ok st2 => Ok ((answers, extras), st2)
              | Err e => Err ("error configuring TTL for " ++ keyName ++ ": " ++ e)
              | Panic m => Panic m
              end
          end
        else Ok ((map (setTtl (uint32 remainingTtl)) answers, extras), st1).

Definition LoadZoneRecords : Redis -> string -> string -> M (list RR * list RR) :=
  LoadZoneRecords_at 2.

(** [LoadAllZoneNames], on a connection of the pool (redigo's [Pool.Get]
    never hands out nil; a broken connection fails its commands). *)
Definition LoadAllZoneNames (redis : Redis) (conn : Agg.Conn) : Outcome (list string) :=
  match Agg.Do conn ["KEYS"; keyPrefix redis ++ "*" ++ keySuffix redis] with
  | Agg.DoErr e => Err e
  | Agg.DoOk reply =>
      match Agg.Strings reply with
      | None => Err "redigo: unexpected type for Strings"
      | Some zones =>
          Ok (map (fun z => TrimSuffix (TrimPrefix z (keyPrefix redis)) (keySuffix redis)) zones)
      end
  end.

End Rows.

(** ** Configuration of the row layout ([part_000], lines 21-200) *)
Module Setup.

(** [type Redis struct] without its [Pool]; durations are [int64]
    nanoseconds. *)
Record Config := mkConfig {
  Zone : string; address : string; username : string; password : string;
  connectTimeout : Z; readTimeout : Z; idleTimeout : Z; maxActive : Z; maxIdle : Z;
  keyPrefix : string; keySuffix : string }.

(** Wrap-around of a 64-bit signed integer. *)
Definition wrap64 (x : Z) : Z := ((x + 2 ^ 63) mod 2 ^ 64 - 2 ^ 63)%Z.

(** [New] *)
Definition New (zone : string) : Config :=
  mkConfig (Fqdn zone) "" "" "" 0 0 0 0 0 "" "".

(** The setters with a pointer receiver update the configuration. *)
Definition SetAddress (r : Config) (a : string) : Config :=
  mkConfig (Zone r) a (username r) (password r) (connectTimeout r) (readTimeout r)
           (idleTimeout r) (maxActive r) (maxIdle r) (keyPrefix r) (keySuffix r).
Definition SetPassword (r : Config) (p : string) : Config :=
  mkConfig (Zone r) (address r) (username r) p (connectTimeout r) (readTimeout r)
           (idleTimeout r) (maxActive r) (maxIdle r) (keyPrefix r) (keySuffix r).
Definition SetKeyPrefix (r : Config) (p : string) : Config :=
  mkConfig (Zone r) (address r) (username r) (password r) (connectTimeout r) (readTimeout r)
           (idleTimeout r) (maxActive r) (maxIdle r) p (keySuffix r).
Definition SetConnectTimeout (r : Config) (t : Z) : Config :=
  mkConfig (Zone r) (address r) (username r) (password r) t (readTimeout r)
           (idleTimeout r) (maxActive r) (maxIdle r) (keyPrefix r) (keySuffix r).
Definition SetReadTimeout (r : Config) (t : Z) : Config :=
  mkConfig (Zone r) (address r) (username r) (password r) (connectTimeout r) t
           (idleTimeout r) (maxActive r) (maxIdle r) (keyPrefix r) (keySuffix r).
Definition SetIdleTimeOut (r : Config) (seconds : Z) : Config :=
  mkConfig (Zone r) (address r) (username r) (password r) (connectTimeout r) (readTimeout r)
           (wrap64 (seconds * 1000000000)) (maxActive r) (maxIdle r) (keyPrefix r) (keySuffix r).
Definition SetMaxActive (r : Config) (n : Z) : Config :=
  mkConfig (Zone r) (address r) (username r) (password r) (connectTimeout r) (readTimeout r)
           (idleTimeout r) n (maxIdle r) (keyPrefix r) (keySuffix r).
Definition SetMaxIdle (r : Config) (n : Z) : Config :=
  mkConfig (Zone r) (address r) (username r) (password r) (connectTimeout r) (readTimeout r)
           (idleTimeout r) (maxActive r) n (keyPrefix r) (keySuffix r).

(** [SetUsername] has a value receiver: it assigns the field of a copy of
    the configuration, which is dropped on return; the caller's value is
    unchanged. *)
Definition SetUsername (r : Config) (u : string) : Config :=
  let _copy := mkConfig (Zone r) (address r) u (password r) (connectTimeout r) (readTimeout r)
                        (idleTimeout r) (maxActive r) (maxIdle r) (keyPrefix r) (keySuffix r) in
  r.

(** A call of one of the setters. *)
Inductive Setter :=
| CallSetAddress (a : string) | CallSetUsername (u : string) | CallSetPassword (p : string)
| CallSetKeyPrefix (p : string) | CallSetConnectTimeout (t : Z) | CallSetReadTimeout (t : Z)
| CallSetIdleTimeOut (s : Z) | CallSetMaxActive (n : Z) | CallSetMaxIdle (n : Z).

Definition call (r : Config) (s : Setter) : Config :=
  match s with
  | CallSetAddress a => SetAddress r a
  | CallSetUsername u => SetUsername r u
  | CallSetPassword p => SetPassword r p
  | CallSetKeyPrefix p => SetKeyPrefix r p
  | CallSetConnectTimeout t => SetConnectTimeout r t
  | CallSetReadTimeout t => SetReadTimeout r t
  | CallSetIdleTimeOut s => SetIdleTimeOut r s
  | CallSetMaxActive n => SetMaxActive r n
  | CallSetMaxIdle n => SetMaxIdle r n
  end.

(** The options of [redisCon.Dial] built by the [Dial] function of
    [Connect]; durations in nanoseconds. *)
Inductive DialOption :=
| DialUsername (u : string) | DialPassword (p : string)
| DialConnectTimeout (d : Z) | DialReadTimeout (d : Z).

Definition dialOptions (r : Config) : list DialOption :=
  ((if String.eqb (username r) "" then [] else [DialUsername (username r)])
   ++ (if String.eqb (password r) "" then [] else [DialPassword (password r)])
   ++ (if (connectTimeout r =? 0)%Z then []
       else [DialConnectTimeout (wrap64 (connectTimeout r * 1000000))])
   ++ (if (readTimeout r =? 0)%Z then []
       else [DialReadTimeout (wrap64 (readTimeout r * 1000000))]))%list.

End Setup.

(** ** Concrete inputs used by the theorems below *)

Definition zone_ab : Agg.Zone := Agg.mkZone "example." ["a.b"].
Definition zone_ab_wild : Agg.Zone := Agg.mkZone "example." ["a.b"; "*.a.b"].
Definition zone_ab_wildb : Agg.Zone := Agg.mkZone "example." ["a.b"; "*.b"].

(** A text of [n] bytes 'a'. *)
Fixpoint text_of_len (n : nat) : string :=
  match n with O => "" | S k => String "a"%char (text_of_len k) end.

(** A backend answering [SCAN] from a table of pages
    [(cursor, next cursor, keys)]. *)
Definition scan_pages (pages : list (string * string * list string)) : Agg.Conn :=
  Agg.mkConn (fun cmd =>
    match cmd with
    | ["SCAN"; c; _; _; _; _] =>
        match find (fun '(cur, _, _) => String.eqb cur c) pages with
        | Some (_, next, ks) => Agg.DoOk (Agg.RArr [Agg.RBulk next; Agg.RArr (map Agg.RBulk ks)])
        | None => Agg.DoErr "ERR invalid cursor"
        end
    | _ => Agg.DoErr "ERR unknown command"
    end).

(** Three pages, the key [zone:example.] on the first and the last. *)
Definition pages_dup : list (string * string * list string) :=
  [("0", "17", ["zone:example."]); ("17", "42", ["zone:other."]);
   ("42", "0", ["zone:example."])].

(** One page holding a key with suffix [:z]. *)
Definition pages_suffix : list (string * string * list string) :=
  [("0", "0", ["example.:z"])].

(** A zone with an apex (NS, CAA and SOA data) and a host [www]. *)
Definition rec_apex : Agg.Record :=
  Agg.mkRecord [] [] [] [] [Agg.mkHost "ns1.example." 0] [] []
               [Agg.mkCAA 0 "issue" "ca.example.net"]
               (Agg.mkSOA 0 "ns1.example." "hostmaster.example." 1 2 3 4).
Definition rec_www : Agg.Record :=
  Agg.mkRecord [Agg.mkAddr (Some "192.0.2.1") 0] [] [] [] [] [] [] [] Agg.emptySOA.

(** The JSON values stored for the two labels, as decoded. *)
Definition json_demo (val : string) : option Agg.Record :=
  if String.eqb val "{apex}" then Some rec_apex
  else if String.eqb val "{www}" then Some rec_www
  else None.

(** A backend holding the hash of zone [example.]. *)
Definition hget_demo : Agg.Conn :=
  Agg.mkConn (fun cmd =>
    match cmd with
    | ["HGET"; _; label] =>
        if String.eqb label "@" then Agg.DoOk (Agg.RBulk "{apex}")
        else if String.eqb label "www" then Agg.DoOk (Agg.RBulk "{www}")
        else Agg.DoOk Agg.RNil
    | _ => Agg.DoErr "ERR unknown command"
    end).
Definition redis_demo : Agg.Redis Agg.Conn := Agg.mkRedis "" "" 0 (Some hget_demo).
Definition zone_demo : Agg.Zone := Agg.mkZone "example." ["@"; "www"].

Definition isNS (rr : Agg.RR) : bool :=
  match Agg.Rrtype (Agg.Hdr rr) with Agg.TypeNS => true | _ => false end.

(** A backend that answers every command with the same reply. *)
Definition reply_always (r : Agg.Reply) : Agg.Conn := Agg.mkConn (fun _ => Agg.DoOk r).
(** A backend whose every command fails. *)
Definition error_always (e : string) : Agg.Conn := Agg.mkConn (fun _ => Agg.DoErr e).

(** Row-layout backends: an A row without TTL key, and an NS row whose TTL
    key reports 2^32 + 5 seconds, its glue A row having no TTL key. *)
Definition rows_redis : Rows.Redis := Rows.mkRedis "" "".
Definition store_a : Rows.Store :=
  Rows.mkStore (fun k => if String.eqb k "A/www.example." then Some ("300 IN A 192.0.2.1", None)
                         else None) false [].
Definition store_ns : Rows.Store :=
  Rows.mkStore (fun k =>
    if String.eqb k "NS/example." then Some ("300 IN NS ns1.example.", None)
    else if String.eqb k "NS/example.:ttl" then Some ("300", Some 4294967301%Z)
    else if String.eqb k "A/ns1.example." then Some ("300 IN A 192.0.2.1", None)
    else None) false [].
Definition answers_a : list Rows.RR :=
  [Rows.mkRR (Rows.mkHdr "www.example." Rows.TypeA Rows.ClassINET 300) (Rows.RA "192.0.2.1")].

(** Three pages without key prefix, the key [example.] on the first and the
    last. *)
Definition pages_plain : list (string * string * list string) :=
  [("0", "17", ["example."]); ("17", "42", ["other."]); ("42", "0", ["example."])].

(** A backend whose zone hash has the fields [@], [www] and [www] again. *)
Definition redis_hkeys : Agg.Redis Agg.Conn :=
  Agg.mkRedis "" "" 0 (Some (reply_always (Agg.RArr [Agg.RBulk "@"; Agg.RBulk "www"; Agg.RBulk "www"]))).

(** A backend answering [KEYS] with the two zone keys [zone:a.:z] and
    [zone:b.:z]. *)
Definition rows_keys_redis : Rows.Redis := Rows.mkRedis "zone:" ":z".
Definition keys_conn : Agg.Conn :=
  reply_always (Agg.RArr [Agg.RBulk "zone:a.:z"; Agg.RBulk "zone:b.:z"]).

(** A zone with one delegated location [sub] whose stored record has an
    address, a name server and a CAA entry; every [HGET] answers it. *)
Definition rec_sub : Agg.Record :=
  Agg.mkRecord [Agg.mkAddr (Some "192.0.2.7") 0] [] [] [] [Agg.mkHost "ns1.sub.example." 0] [] []
               [Agg.mkCAA 0 "issue" "ca.example.net"] Agg.emptySOA.
Definition json_sub (val : string) : option Agg.Record :=
  if String.eqb val "{sub}" then Some rec_sub else None.
Definition redis_sub : Agg.Redis Agg.Conn :=
  Agg.mkRedis "" "" 0 (Some (reply_always (Agg.RBulk "{sub}"))).
Definition zone_sub : Agg.Zone := Agg.mkZone "example." ["sub"].

Definition isCAA (rr : Agg.RR) : bool :=
  match Agg.Rrtype (Agg.Hdr rr) with Agg.TypeCAA => true | _ => false end.
Definition isA (rr : Agg.RR) : bool :=
  match Agg.Rrtype (Agg.Hdr rr) with Agg.TypeA => true | _ => false end.

(** ** Predicates used by the theorems *)

(** [closest_encloser z q (c, ss)]: walking up from the relative name [q]
    by dropping its first label ([splitQuery]), [c] is the first name that
    exists in [z] (a location, or a byte suffix of one, as [keyMatches]
    decides), and [ss] is the source of synthesis formed with it. *)
Inductive closest_encloser (z : Agg.Zone) : string -> string * string -> Prop :=
| ce_here : forall q c ss,
    Agg.splitQuery q = (c, ss, true) ->
    (Agg.keyMatches c z || Agg.keyExists c z) = true ->
    closest_encloser z q (c, ss)
| ce_up : forall q c ss r,
    Agg.splitQuery q = (c, ss, true) ->
    (Agg.keyMatches c z || Agg.keyExists c z) = false ->
    closest_encloser z c r -> closest_encloser z q r.

(** [rr] has owner [dns.Fqdn(name)], type [t] and class IN. *)
Definition owned (name : string) (t : Agg.RRType) (rr : Agg.RR) : Prop :=
  Agg.hName (Agg.Hdr rr) = Fqdn name /\ Agg.Rrtype (Agg.Hdr rr) = t
  /\ Agg.Class (Agg.Hdr rr) = Agg.ClassINET.

(** [rr] is a glue record of [host]: an A, AAAA or CNAME record owned by
    [dns.Fqdn(host)]. *)
Definition is_glue (host : string) (rr : Agg.RR) : Prop :=
  Agg.hName (Agg.Hdr rr) = Fqdn host
  /\ (Agg.Rrtype (Agg.Hdr rr) = Agg.TypeA \/ Agg.Rrtype (Agg.Hdr rr) = Agg.TypeAAAA
      \/ Agg.Rrtype (Agg.Hdr rr) = Agg.TypeCNAME).

(** A [SET k v EX v] command on a key [k] ending in [:ttl]. *)
Definition ttl_write (cmd : list string) : Prop :=
  exists k v, cmd = ["SET"; k; v; "EX"; v] /\ HasSuffix k ":ttl" = true.

(** From [st] to [st'] the backend kept its connection state and its data
    rows: only keys ending in [:ttl] changed, and every command sent was a
    [ttl_write]. *)
Definition ttl_writes_only (st st' : Rows.Store) : Prop :=
  Rows.down st' = Rows.down st
  /\ (forall k, HasSuffix k ":ttl" = false -> Rows.db st' k = Rows.db st k)
  /\ exists cmds, Rows.sent st' = (Rows.sent st ++ cmds)%list /\ Forall ttl_write cmds.

(** A glue lookup that, when it succeeds, only wrote TTL keys. *)
Definition glue_ok (g : string -> Rows.M (list Rows.RR)) : Prop :=
  forall host st res st', g host st = Ok (res, st') -> ttl_writes_only st st'.

(** The option sets a user name. *)
Definition is_username_option (o : Setup.DialOption) : bool :=
  match o with Setup.DialUsername _ => true | _ => false end.

(** ** Theorems *)
Import Agg.

(** Every [splitQuery] that succeeds yields a wildcard source of synthesis. *)
Lemma splitQuery_wildcard : forall q ce ss,
  splitQuery q = (ce, ss, true) -> String.prefix "*" ss = true.
Proof.
  intros q ce ss H. unfold splitQuery in H.
  destruct (String.eqb q ""); [discriminate|].
  destruct (SplitAfterDot q) as [[h t]|]; injection H; intros; subst; reflexivity.
Qed.

(** The closest-encloser loop answers "" or a wildcard location of the zone. *)
Lemma searchLoop_result : forall fuel z ce ss ok,
  (ok = true -> String.prefix "*" ss = true) ->
  searchLoop fuel z ce ss ok = ""
  \/ (keyExists (searchLoop fuel z ce ss ok) z = true
      /\ String.prefix "*" (searchLoop fuel z ce ss ok) = true).
Proof.
  induction fuel as [|fuel IH]; intros z ce ss ok Hok; simpl; [now left|].
  destruct ok; [|now left].
  destruct (keyMatches ce z || keyExists ce z).
  - destruct (keyExists ss z) eqn:Hss; [right; split; auto|now left].
  - destruct (splitQuery ce) as [[ce' ss'] ok'] eqn:Hsp.
    apply IH. intros ->. exact (splitQuery_wildcard _ _ _ Hsp).
Qed.

Lemma SplitAfterDot_length : forall s h t, SplitAfterDot s = Some (h, t) ->
  (String.length h + String.length t = String.length s /\ 0 < String.length h)%nat.
Proof.
  induction s as [|c s IH]; intros h t H; simpl in H; [discriminate|].
  destruct (Ascii.eqb c "."%char).
  - injection H; intros; subst. simpl. lia.
  - destruct (SplitAfterDot s) as [[h' t']|] eqn:E; [|discriminate].
    injection H; intros; subst. destruct (IH h' t eq_refl). simpl. lia.
Qed.

(** Every [splitQuery] that succeeds strictly shortens the name. *)
Lemma splitQuery_shorter : forall q ce ss,
  splitQuery q = (ce, ss, true) -> (String.length ce < String.length q)%nat.
Proof.
  intros q ce ss H. unfold splitQuery in H.
  destruct (String.eqb q "") eqn:E; [discriminate|].
  destruct (SplitAfterDot q) as [[h t]|] eqn:Hs.
  - injection H; intros; subst. destruct (SplitAfterDot_length _ _ _ Hs). lia.
  - injection H; intros; subst. destruct q; [discriminate|simpl; lia].
Qed.

Lemma closest_encloser_split : forall z q r,
  closest_encloser z q r -> exists c ss, splitQuery q = (c, ss, true).
Proof. intros z q r H. destruct H as [q c ss Hs _|q c ss r Hs _ _]; eauto. Qed.

(** With enough fuel the search stops at the closest encloser and answers
    its source of synthesis when that is a location, "" otherwise. *)
Lemma searchLoop_closest : forall z q r,
  closest_encloser z q r ->
  forall n ce ss, (String.length q < n)%nat -> splitQuery q = (ce, ss, true) ->
  searchLoop n z ce ss true = (if keyExists (snd r) z then snd r else "").
Proof.
  intros z q r H. induction H as [q c ss Hs He|q c ss r Hs He Hr IH];
    intros n ce ss' Hn Hq; rewrite Hs in Hq; injection Hq as <- <-;
    (destruct n as [|n]; [lia|]); cbn [searchLoop]; rewrite He.
  - reflexivity.
  - destruct (closest_encloser_split _ _ _ Hr) as [c2 [s2 Hs2]]. rewrite Hs2.
    apply IH; [pose proof (splitQuery_shorter _ _ _ Hs); lia|exact Hs2].
Qed.

(** Without a closest encloser the search answers "". *)
Lemma searchLoop_no_closest : forall n z q ce ss,
  splitQuery q = (ce, ss, true) -> (forall r, ~ closest_encloser z q r) ->
  searchLoop n z ce ss true = "".
Proof.
  induction n as [|n IH]; intros z q ce ss Hs Hno; [reflexivity|].
  cbn [searchLoop]. destruct (keyMatches ce z || keyExists ce z) eqn:He.
  - exfalso. apply (Hno (ce, ss)). apply ce_here; assumption.
  - destruct (splitQuery ce) as [[c2 s2] ok] eqn:Hs2. destruct ok.
    + apply (IH z ce c2 s2 Hs2). intros r Hr. apply (Hno r). eapply ce_up; eassumption.
    + destruct n; reflexivity.
Qed.

(** C1: wildcard synthesis. For a query [q] other than the zone name whose
    relative name [R] is not a location, [findLocation] performs the
    closest-encloser search: when [R] has a closest encloser it returns that
    encloser's source of synthesis if it is a location and "" (no match)
    otherwise; when [R] has none it returns "". Any non-empty answer of the
    search is a wildcard location. With locations {a.b}, x.a.b resolves to
    ""; with {a.b, *.a.b} it resolves to *.a.b, and so does y.x.a.b, whose
    closest encloser is a.b; with {a.b, *.b}, y.x.a.b resolves to "". *)
Theorem findLocation_wildcard_synthesis :
  (forall z q c ss,
     q <> Name z ->
     keyExists (TrimSuffix q ("." ++ Name z)) z = false ->
     closest_encloser z (TrimSuffix q ("." ++ Name z)) (c, ss) ->
     findLocation q z = (if keyExists ss z then ss else ""))
  /\ (forall z q,
        q <> Name z ->
        keyExists (TrimSuffix q ("." ++ Name z)) z = false ->
        (forall r, ~ closest_encloser z (TrimSuffix q ("." ++ Name z)) r) ->
        findLocation q z = "")
  /\ (forall z q,
        q <> Name z ->
        keyExists (TrimSuffix q ("." ++ Name z)) z = false ->
        findLocation q z = ""
        \/ (keyExists (findLocation q z) z = true
            /\ String.prefix "*" (findLocation q z) = true))
  /\ findLocation "x.a.b" zone_ab = ""
  /\ findLocation "x.a.b.example." zone_ab = ""
  /\ findLocation "x.a.b" zone_ab_wild = "*.a.b"
  /\ findLocation "x.a.b.example." zone_ab_wild = "*.a.b"
  /\ closest_encloser zone_ab_wild "y.x.a.b" ("a.b", "*.a.b")
  /\ findLocation "y.x.a.b" zone_ab_wild = "*.a.b"
  /\ closest_encloser zone_ab_wildb "y.x.a.b" ("a.b", "*.a.b")
  /\ findLocation "y.x.a.b" zone_ab_wildb = "".
Proof.
  split; [|split; [|split]].
  - intros z q c ss Hq Hk Hc. unfold findLocation.
    apply String.eqb_neq in Hq. rewrite Hq, Hk.
    destruct (closest_encloser_split _ _ _ Hc) as [c1 [s1 Hs1]]. rewrite Hs1.
    exact (searchLoop_closest _ _ _ Hc _ _ _ (Nat.lt_succ_diag_r _) Hs1).
  - intros z q Hq Hk Hno. unfold findLocation.
    apply String.eqb_neq in Hq. rewrite Hq, Hk.
    destruct (splitQuery (TrimSuffix q ("." ++ Name z))) as [[ce ss] ok] eqn:Hs.
    destruct ok; [exact (searchLoop_no_closest _ _ _ _ _ Hs Hno)|reflexivity].
  - intros z q Hq Hk. unfold findLocation.
    apply String.eqb_neq in Hq. rewrite Hq, Hk.
    destruct (splitQuery (TrimSuffix q ("." ++ Name z))) as [[ce ss] ok] eqn:Hsp.
    apply searchLoop_result. intros ->. exact (splitQuery_wildcard _ _ _ Hsp).
  - split; [reflexivity|]. split; [reflexivity|]. split; [reflexivity|].
    split; [reflexivity|]. split.
    { eapply ce_up; [reflexivity|reflexivity|]. apply ce_here; reflexivity. }
    split; [reflexivity|]. split; [|reflexivity].
    eapply ce_up; [reflexivity|reflexivity|]. apply ce_here; reflexivity.
Qed.

(** C2 (counterexample): for a query equal to the zone name,
    [findLocation] does not return "@": it returns the zone name. *)
Lemma findLocation_apex_not_at :
  findLocation "example." zone_ab <> "@".
Proof. vm_compute. discriminate. Qed.

(** C2 (amended): for every zone, a query equal to the zone name resolves to
    the zone name itself, and [get] looks that location up under the hash
    field "@", exactly as for the label "@". *)
Theorem findLocation_apex :
  forall json redis z,
    findLocation (Name z) z = Name z
    /\ get json redis (findLocation (Name z) z) z = get json redis "@" z.
Proof.
  intros json redis z. unfold findLocation. rewrite String.eqb_refl.
  split; [reflexivity|].
  unfold get. destruct (pool redis) as [conn|]; [|reflexivity].
  rewrite String.eqb_refl. destruct (String.eqb "@" (Name z)); reflexivity.
Qed.

(** C5: the effective TTL is min(zone ceiling, record TTL) when both are
    set, the one that is set when only one is, and 360 when neither is;
    record TTL 50 with ceiling 30 gives 30, 0 with 0 gives 360. *)
Theorem minTtl_policy :
  (forall C (redis : Redis C) ttl,
     minTtl redis ttl =
       if (Ttl redis =? 0)%N then (if (ttl =? 0)%N then 360%N else ttl)
       else if (ttl =? 0)%N then Ttl redis
       else N.min (Ttl redis) ttl)
  /\ (forall C (pl : option C), minTtl (mkRedis "" "" 30 pl) 50 = 30%N)
  /\ (forall C (pl : option C), minTtl (mkRedis "" "" 0 pl) 0 = 360%N).
Proof.
  split; [|split; reflexivity].
  intros C redis ttl. unfold minTtl.
  destruct (Ttl redis =? 0)%N eqn:Hz; destruct (ttl =? 0)%N eqn:Ht; simpl; try reflexivity.
  destruct (Ttl redis <? ttl)%N eqn:Hlt.
  - apply N.ltb_lt in Hlt. symmetry. apply N.min_l. lia.
  - apply N.ltb_ge in Hlt. symmetry. apply N.min_r. lia.
Qed.

(** C4 (code bug): on a 510-byte text [split255] returns three chunks, the
    last one empty: the loop appends [s[p:i]] while [i <= len(s)], so a
    length that is a multiple of 255 gets a trailing empty chunk. *)
Theorem split255_510_three_chunks :
  split255 (text_of_len 510) = [text_of_len 255; text_of_len 255; ""]
  /\ length (split255 (text_of_len 510)) = 3%nat.
Proof. split; vm_compute; reflexivity. Qed.

Lemma string_append_assoc : forall s1 s2 s3 : string,
  ((s1 ++ s2) ++ s3)%string = (s1 ++ s2 ++ s3)%string.
Proof. induction s1 as [|c s1 IH]; intros; simpl; [reflexivity|now rewrite IH]. Qed.

Lemma string_append_empty_r : forall s : string, (s ++ "")%string = s.
Proof. induction s as [|c s IH]; simpl; [reflexivity|now rewrite IH]. Qed.

(** Slicing lemmas for [substring]. *)
Lemma substring_app : forall s p n m,
  (p + n + m <= String.length s)%nat ->
  (substring p n s ++ substring (p + n) m s)%string = substring p (n + m) s.
Proof.
  induction s as [|c s IH]; intros p n m H.
  - simpl in H. assert (p = 0 /\ n = 0 /\ m = 0)%nat as [-> [-> ->]] by lia. reflexivity.
  - destruct p as [|p].
    + destruct n as [|n].
      * destruct m; reflexivity.
      * simpl in H |- *. f_equal. apply (IH 0%nat n m). simpl. lia.
    + simpl in H |- *. apply IH. lia.
Qed.

Lemma substring_length : forall s p n,
  (p + n <= String.length s)%nat -> String.length (substring p n s) = n.
Proof.
  induction s as [|c s IH]; intros p n H.
  - simpl in H. assert (p = 0 /\ n = 0)%nat as [-> ->] by lia. reflexivity.
  - destruct p as [|p]; destruct n as [|n]; simpl in H |- *; try reflexivity.
    + f_equal. apply (IH 0%nat n). simpl. lia.
    + apply IH. lia.
    + apply IH. lia.
Qed.

Lemma substring_all : forall s, substring 0 (String.length s) s = s.
Proof. induction s as [|c s IH]; simpl; [reflexivity|now rewrite IH]. Qed.

Lemma split255_loop_spec : forall s fuel p sx,
  fold_right String.append "" sx = substring 0 p s ->
  Forall (fun c => String.length c <= 255)%nat sx ->
  (p <= String.length s)%nat ->
  (String.length s < p + 255 * fuel)%nat ->
  fold_right String.append "" (split255_loop fuel s p (p + 255) sx) = s
  /\ Forall (fun c => String.length c <= 255)%nat (split255_loop fuel s p (p + 255) sx).
Proof.
  intros s fuel. induction fuel as [|fuel IH]; intros p sx Hcat Hlen Hp Hfuel; [lia|].
  cbn [split255_loop].
  assert (Hcat' : forall c, fold_right String.append "" (sx ++ [c])%list
                            = (substring 0 p s ++ c)%string).
  { intro c. rewrite fold_right_app, <- Hcat. simpl.
    clear. induction sx as [|x sx IH]; simpl.
    - rewrite string_append_empty_r. reflexivity.
    - rewrite IH, string_append_assoc. reflexivity. }
  destruct (p + 255 <=? String.length s)%nat eqn:Hle.
  - apply Nat.leb_le in Hle.
    replace (p + 255 + 255)%nat with ((p + 255) + 255)%nat by lia.
    apply IH.
    + rewrite Hcat'. replace (p + 255 - p)%nat with 255%nat by lia.
      exact (substring_app s 0 p 255 ltac:(lia)).
    + apply Forall_app. split; [exact Hlen|]. constructor; [|constructor].
      rewrite substring_length by lia. lia.
    + exact Hle.
    + lia.
  - apply Nat.leb_gt in Hle. split.
    + rewrite Hcat'.
      pose proof (substring_app s 0 p (String.length s - p) ltac:(lia)) as E.
      cbn [Nat.add] in E. rewrite E.
      replace (p + (String.length s - p))%nat with (String.length s) by lia.
      apply substring_all.
    + apply Forall_app. split; [exact Hlen|]. constructor; [|constructor].
      rewrite substring_length by lia. lia.
Qed.

(** [split255] loses no data and respects the 255-byte limit of a DNS
    character string: its chunks concatenate to the input and none is longer
    than 255 bytes. *)
Lemma split255_concat_bound : forall s,
  fold_right String.append "" (split255 s) = s
  /\ Forall (fun c => String.length c <= 255)%nat (split255 s).
Proof.
  intro s. unfold split255.
  destruct (String.length s <? 255)%nat eqn:Hlt.
  - apply Nat.ltb_lt in Hlt. simpl. rewrite string_append_empty_r.
    split; [reflexivity|constructor; [lia|constructor]].
  - apply Nat.ltb_ge in Hlt.
    apply (split255_loop_spec s (S (String.length s)) 0 []).
    + destruct s; reflexivity.
    + constructor.
    + lia.
    + lia.
Qed.

(** C6 (code bug): [LoadZones] checks [keysSeen] with the raw key but
    records the stripped name, so with a key prefix a key returned on two
    pages is listed twice; and it removes the suffix with [TrimPrefix], so a
    key suffix is kept in the zone name. *)
Theorem LoadZones_dedup_and_suffix :
  LoadZones 10 (mkRedis "zone:" "" 0 (Some (scan_pages pages_dup)))
    = Ok ["example."; "other."; "example."]
  /\ LoadZones 10 (mkRedis "" ":z" 0 (Some (scan_pages pages_suffix)))
    = Ok ["example.:z"].
Proof. split; vm_compute; reflexivity. Qed.

(** The [AXFR] loop: the SOA slot holds the apex SOA once "@" was visited,
    answers and extras collect the six per-location synthesizers in order. *)
Lemma axfr_fold : forall json now redis z l soa0 ans0 ext0,
  fold_left (axfrStep json now redis z) l (soa0, ans0, ext0) =
  ((if mem "@" l
    then fst (SOA now redis (Name z) z (get json redis (findLocation (Name z) z) z))
    else soa0),
   ans0 ++ flat_map (fun key =>
      if String.eqb key "@" then []
      else let fq := String.append (Fqdn key) (Name z) in
           let record := get json redis (findLocation fq z) z in
           flat_map fst [A redis fq z record; AAAA redis fq z record;
                         CNAME redis fq z record; MX json redis fq z record;
                         SRV json redis fq z record; TXT redis fq z record]) l,
   ext0 ++ flat_map (fun key =>
      if String.eqb key "@" then []
      else let fq := String.append (Fqdn key) (Name z) in
           let record := get json redis (findLocation fq z) z in
           flat_map snd [A redis fq z record; AAAA redis fq z record;
                         CNAME redis fq z record; MX json redis fq z record;
                         SRV json redis fq z record; TXT redis fq z record]) l)%list.
Proof.
  intros json now redis z l. induction l as [|key l IH]; intros soa0 ans0 ext0.
  - simpl. now rewrite !app_nil_r.
  - cbn [fold_left].
    change (axfrStep json now redis z (soa0, ans0, ext0) key) with
      (if String.eqb key "@" then
         (fst (SOA now redis (Name z) z (get json redis (findLocation (Name z) z) z)), ans0, ext0)
       else
         let fq := String.append (Fqdn key) (Name z) in
         let record := get json redis (findLocation fq z) z in
         let all := [A redis fq z record; AAAA redis fq z record;
                     CNAME redis fq z record; MX json redis fq z record;
                     SRV json redis fq z record; TXT redis fq z record] in
         (soa0, ans0 ++ flat_map fst all, ext0 ++ flat_map snd all)%list).
    unfold mem. cbn [existsb flat_map]. rewrite (String.eqb_sym "@" key).
    destruct (String.eqb key "@") eqn:Hk.
    + rewrite IH. cbn [orb app].
      destruct (mem "@" l); reflexivity.
    + rewrite IH. cbn [orb]. now rewrite <- !app_assoc.
Qed.

(** C7 (code bug): [AXFR] pulls, under the comment "Pull all zone
    records", only the A, AAAA, CNAME, MX, SRV and TXT synthesizers, though
    NS and CAA synthesizers of the same signature exist. For the delegated
    location [sub] of [zone_sub] the NS and CAA synthesizers answer for its
    record, and the transfer holds its A record but no NS and no CAA
    record. *)
Theorem AXFR_omits_NS_CAA :
  fst (NS json_sub redis_sub "sub.example." zone_sub
          (get json_sub redis_sub (findLocation "sub.example." zone_sub) zone_sub)) <> []
  /\ fst (CAA redis_sub "sub.example." zone_sub
          (get json_sub redis_sub (findLocation "sub.example." zone_sub) zone_sub)) <> []
  /\ existsb isA (AXFR json_sub 0 redis_sub zone_sub) = true
  /\ existsb isNS (AXFR json_sub 0 redis_sub zone_sub) = false
  /\ existsb isCAA (AXFR json_sub 0 redis_sub zone_sub) = false.
Proof.
  split; [vm_compute; discriminate|]. split; [vm_compute; discriminate|].
  split; [|split]; vm_compute; reflexivity.
Qed.

(** X17: a zone transfer visits every location; for "@" it synthesizes
    only the zone's SOA, for every other location A, AAAA, CNAME, MX, SRV
    and TXT; the output is the SOA record(s) (none when "@" is not a
    location), all those answers, all their extras, and the SOA record(s)
    again. *)
Theorem AXFR_framing : forall json now redis z,
  let soa := if mem "@" (Locations z)
             then fst (SOA now redis (Name z) z (get json redis (findLocation (Name z) z) z))
             else [] in
  let syn := fun key =>
    let fq := String.append (Fqdn key) (Name z) in
    let record := get json redis (findLocation fq z) z in
    [A redis fq z record; AAAA redis fq z record; CNAME redis fq z record;
     MX json redis fq z record; SRV json redis fq z record; TXT redis fq z record] in
  AXFR json now redis z =
    (soa
     ++ flat_map (fun key => if String.eqb key "@" then [] else flat_map fst (syn key)) (Locations z)
     ++ flat_map (fun key => if String.eqb key "@" then [] else flat_map snd (syn key)) (Locations z)
     ++ soa)%list.
Proof.
  intros json now redis z soa syn. unfold AXFR.
  rewrite axfr_fold. reflexivity.
Qed.

(** C8 (counterexample): [get] returns the same nil record for malformed
    stored JSON, for an absent field, for a failed command and without a
    connection. *)
Lemma get_conflates_failures :
  get json_demo (mkRedis "" "" 0 (Some (reply_always (RBulk "{not json")))) "www" zone_demo = None
  /\ get json_demo (mkRedis "" "" 0 (Some (reply_always RNil))) "www" zone_demo = None
  /\ get json_demo (mkRedis "" "" 0 (Some (error_always "ERR backend"))) "www" zone_demo = None
  /\ get json_demo (mkRedis "" "" 0 None) "www" zone_demo = None.
Proof. repeat split. Qed.

(** C8 (amended): [get] reports a missing connection, a failed [HGET], an
    absent field and malformed JSON all as the nil record, the value that
    also means "record absent"; [save] returns the error of a failed
    [HSET]. *)
Theorem get_save_error_reporting : forall json (redis : Redis Conn) z key,
  (pool redis = None -> get json redis key z = None)
  /\ (forall conn e, pool redis = Some conn -> (forall cmd, Do conn cmd = DoErr e) ->
        get json redis key z = None)
  /\ (forall conn, pool redis = Some conn -> (forall cmd, Do conn cmd = DoOk RNil) ->
        get json redis key z = None)
  /\ (forall conn v, pool redis = Some conn -> (forall cmd, Do conn cmd = DoOk (RBulk v)) ->
        json v = None -> get json redis key z = None)
  /\ (forall conn e zone sub value, pool redis = Some conn ->
        (forall cmd, Do conn cmd = DoErr e) -> save redis zone sub value = Some e).
Proof.
  intros json redis z key. unfold get, save.
  repeat split.
  - intros ->. reflexivity.
  - intros conn e -> Hdo. rewrite Hdo. reflexivity.
  - intros conn -> Hdo. rewrite Hdo. reflexivity.
  - intros conn v -> Hdo Hj. rewrite Hdo. exact Hj.
  - intros conn e zone sub value -> Hdo. rewrite Hdo. reflexivity.
Qed.

(** [minTtl] never yields the zero sentinel. *)
Lemma minTtl_nonzero : forall C (redis : Redis C) ttl, minTtl redis ttl <> 0%N.
Proof.
  intros C redis ttl. unfold minTtl.
  destruct (Ttl redis =? 0)%N eqn:Hz; destruct (ttl =? 0)%N eqn:Ht; simpl;
    try (unfold defaultTtl; discriminate);
    try (apply N.eqb_neq; assumption).
  destruct (Ttl redis <? ttl)%N; apply N.eqb_neq; assumption.
Qed.

Lemma Forall_flat_map_intro : forall {X Y} (P : Y -> Prop) (f : X -> list Y) l,
  (forall x, Forall P (f x)) -> Forall P (flat_map f l).
Proof.
  intros X Y P f l Hf. induction l as [|x l IH]; simpl; [constructor|].
  apply Forall_app. split; auto.
Qed.

Definition nonzero_ttl (l : list RR) : Prop := Forall (fun rr => hTtl (Hdr rr) <> 0%N) l.

Lemma hdr_nonzero : forall redis name t ttl, hTtl (hdr redis name t ttl) <> 0%N.
Proof. intros. apply minTtl_nonzero. Qed.

Ltac ttl_list :=
  repeat match goal with
  | |- nonzero_ttl (flat_map _ _) => apply Forall_flat_map_intro; intro
  | |- Forall _ (flat_map _ _) => apply Forall_flat_map_intro; intro
  | |- Forall _ (if ?b then _ else _) => destruct b
  | |- Forall _ (match ?o with _ => _ end) => destruct o
  | |- Forall _ [] => constructor
  | |- Forall _ (_ :: _) => constructor
  | |- hTtl (Hdr (mkRR ?h _)) <> 0%N => change (hTtl h <> 0%N)
  | |- hTtl (hdr _ _ _ _) <> 0%N => apply hdr_nonzero
  end.

Lemma A_nonzero : forall redis name z record,
  nonzero_ttl (fst (A redis name z record)) /\ nonzero_ttl (snd (A redis name z record)).
Proof. intros. unfold A, nonzero_ttl. destruct record; simpl; split; ttl_list. Qed.

Lemma AAAA_nonzero : forall redis name z record,
  nonzero_ttl (fst (AAAA redis name z record)) /\ nonzero_ttl (snd (AAAA redis name z record)).
Proof. intros. unfold AAAA, nonzero_ttl. destruct record; simpl; split; ttl_list. Qed.

Lemma CNAME_nonzero : forall redis name z record,
  nonzero_ttl (fst (CNAME redis name z record)) /\ nonzero_ttl (snd (CNAME redis name z record)).
Proof. intros. unfold CNAME, nonzero_ttl. destruct record; simpl; split; ttl_list. Qed.

Lemma TXT_nonzero : forall redis name z record,
  nonzero_ttl (fst (TXT redis name z record)) /\ nonzero_ttl (snd (TXT redis name z record)).
Proof. intros. unfold TXT, nonzero_ttl. destruct record; simpl; split; ttl_list. Qed.

Lemma hosts_nonzero : forall json redis name z, nonzero_ttl (hosts json redis name z).
Proof.
  intros. unfold hosts. destruct (String.eqb (findLocation name z) ""); [constructor|].
  unfold nonzero_ttl. apply Forall_app; split; [apply A_nonzero|].
  apply Forall_app; split; [apply AAAA_nonzero|apply CNAME_nonzero].
Qed.

Lemma withGlue_nonzero : forall {T} json redis z (target : T -> string) mk l,
  (forall x, hTtl (Hdr (mk x)) <> 0%N) ->
  nonzero_ttl (fst (withGlue json redis z target mk l))
  /\ nonzero_ttl (snd (withGlue json redis z target mk l)).
Proof.
  intros T json redis z target mk l Hmk. unfold nonzero_ttl.
  induction l as [|x l [IH1 IH2]]; simpl; [split; constructor|].
  destruct (withGlue json redis z target mk l) as [ans ext]. simpl in *.
  destruct (String.eqb (target x) ""); simpl; [split; assumption|].
  split; [constructor; auto|].
  apply Forall_app; split; [apply hosts_nonzero|assumption].
Qed.

(** C9 (counterexample): with no zone ceiling configured and a record
    without custom SOA data, the synthesized SOA record carries TTL 0. *)
Lemma SOA_zero_ttl :
  map (fun rr => hTtl (Hdr rr)) (fst (SOA 0 redis_demo "example." zone_demo (Some rec_www)))
  = [0%N].
Proof. reflexivity. Qed.

(** C9 (amended): every answer and extra record synthesized by A, AAAA,
    CNAME, TXT, NS, MX and SRV, and the SOA record built from custom SOA
    data, carries a nonzero TTL (the TTL policy's value, 360 when both levels
    are zero); the SOA record of a record without custom SOA data carries the
    zone ceiling as is, which is nonzero exactly when a ceiling is set. *)
Theorem synthesized_ttl_nonzero : forall json now redis name z record,
  nonzero_ttl (fst (A redis name z record) ++ snd (A redis name z record))
  /\ nonzero_ttl (fst (AAAA redis name z record) ++ snd (AAAA redis name z record))
  /\ nonzero_ttl (fst (CNAME redis name z record) ++ snd (CNAME redis name z record))
  /\ nonzero_ttl (fst (TXT redis name z record) ++ snd (TXT redis name z record))
  /\ nonzero_ttl (fst (NS json redis name z record) ++ snd (NS json redis name z record))
  /\ nonzero_ttl (fst (MX json redis name z record) ++ snd (MX json redis name z record))
  /\ nonzero_ttl (fst (SRV json redis name z record) ++ snd (SRV json redis name z record))
  /\ (forall r, record = Some r -> soa_Ns (rec_SOA r) <> "" ->
        nonzero_ttl (fst (SOA now redis name z record)))
  /\ (forall r, record = Some r -> soa_Ns (rec_SOA r) = "" ->
        map (fun rr => hTtl (Hdr rr)) (fst (SOA now redis name z record)) = [Ttl redis]).
Proof.
  intros json now redis name z record. unfold nonzero_ttl.
  repeat split; try (apply Forall_app; split).
  all: try apply A_nonzero; try apply AAAA_nonzero; try apply CNAME_nonzero;
       try apply TXT_nonzero.
  all: try (unfold NS, MX, SRV; destruct record; simpl;
            [apply withGlue_nonzero; intro; apply hdr_nonzero|constructor]).
  - intros r -> Hns. unfold SOA. apply String.eqb_neq in Hns. rewrite Hns.
    simpl. constructor; [apply minTtl_nonzero|constructor].
  - intros r -> Hns. unfold SOA. rewrite Hns. reflexivity.
Qed.

(** *** Further properties of the aggregated layout *)

Lemma string_length_append : forall s1 s2 : string,
  String.length (s1 ++ s2) = (String.length s1 + String.length s2)%nat.
Proof. induction s1 as [|c s1 IH]; intros; simpl; [reflexivity|now rewrite IH]. Qed.

Lemma mem_In : forall k l, mem k l = true <-> In k l.
Proof.
  intros k l. unfold mem. rewrite existsb_exists. split.
  - intros [x [Hx E]]. apply String.eqb_eq in E. subst. exact Hx.
  - intros H. exists k. split; [exact H|apply String.eqb_refl].
Qed.

(** X1: [findLocation] answers "" (no match), the zone name (a query for
    the apex) or a location of the zone; [get] is never asked for a label
    that is not one of these. *)
Theorem findLocation_result_range : forall q z,
  findLocation q z = "" \/ findLocation q z = Name z
  \/ keyExists (findLocation q z) z = true.
Proof.
  intros q z. unfold findLocation. cbv zeta.
  destruct (String.eqb q (Name z)) eqn:E.
  - apply String.eqb_eq in E. right; left; exact E.
  - destruct (keyExists (TrimSuffix q ("." ++ Name z)) z) eqn:K; [right; right; exact K|].
    destruct (splitQuery (TrimSuffix q ("." ++ Name z))) as [[ce ss] ok] eqn:Hsp.
    destruct (searchLoop_result (S (String.length (TrimSuffix q ("." ++ Name z)))) z ce ss ok)
      as [H|[H _]].
    + intros ->. exact (splitQuery_wildcard _ _ _ Hsp).
    + left. exact H.
    + right; right. exact H.
Qed.

Lemma searchLoop_fuel : forall n m z ce ss ok,
  (ok = true -> S (String.length ce) <= n)%nat -> (n <= m)%nat ->
  searchLoop n z ce ss ok = searchLoop m z ce ss ok.
Proof.
  induction n as [|n IH]; intros m z ce ss ok Hok Hm.
  - destruct ok; [specialize (Hok eq_refl); lia|]. destruct m; reflexivity.
  - destruct m as [|m]; [lia|]. cbn [searchLoop]. destruct ok; [|reflexivity].
    destruct (keyMatches ce z || keyExists ce z); [reflexivity|].
    destruct (splitQuery ce) as [[ce' ss'] ok'] eqn:Hsp.
    apply IH; [|lia]. intros ->. specialize (Hok eq_refl).
    pose proof (splitQuery_shorter _ _ _ Hsp). lia.
Qed.

(** X2: the closest-encloser loop of [findLocation] stops within
    [len(query) + 1] passes, since every pass shortens the encloser: running
    it with any larger bound [m] gives the same answer. *)
Theorem findLocation_search_bound : forall q z m,
  (S (String.length (TrimSuffix q ("." ++ Name z))) <= m)%nat ->
  findLocation q z =
    if String.eqb q (Name z) then q
    else if keyExists (TrimSuffix q ("." ++ Name z)) z then TrimSuffix q ("." ++ Name z)
    else let '(ce, ss, ok) := splitQuery (TrimSuffix q ("." ++ Name z)) in
         searchLoop m z ce ss ok.
Proof.
  intros q z m Hm. unfold findLocation. cbv zeta.
  destruct (String.eqb q (Name z)); [reflexivity|].
  destruct (keyExists (TrimSuffix q ("." ++ Name z)) z); [reflexivity|].
  destruct (splitQuery (TrimSuffix q ("." ++ Name z))) as [[ce ss] ok] eqn:Hsp.
  apply searchLoop_fuel; [|exact Hm].
  intros ->. pose proof (splitQuery_shorter _ _ _ Hsp). lia.
Qed.

Lemma findLocation_search_bound_witness :
  (S (String.length (TrimSuffix "x.a.b.example." ("." ++ Name zone_ab_wild))) <= 100)%nat
  /\ findLocation "x.a.b.example." zone_ab_wild =
     if String.eqb "x.a.b.example." (Name zone_ab_wild) then "x.a.b.example."
     else if keyExists (TrimSuffix "x.a.b.example." ("." ++ Name zone_ab_wild)) zone_ab_wild
     then TrimSuffix "x.a.b.example." ("." ++ Name zone_ab_wild)
     else let '(ce, ss, ok) := splitQuery (TrimSuffix "x.a.b.example." ("." ++ Name zone_ab_wild)) in
          searchLoop 100 zone_ab_wild ce ss ok.
Proof.
  assert (H : (S (String.length (TrimSuffix "x.a.b.example." ("." ++ Name zone_ab_wild))) <= 100)%nat)
    by (apply Nat.leb_le; reflexivity).
  split; [exact H|].
  exact (findLocation_search_bound "x.a.b.example." zone_ab_wild 100 H).
Defined.

Lemma split255_loop_count : forall s fuel k sx,
  length sx = k -> (255 * k <= String.length s)%nat ->
  (String.length s < 255 * k + 255 * fuel)%nat ->
  length (split255_loop fuel s (255 * k) (255 * k + 255) sx) = (String.length s / 255 + 1)%nat.
Proof.
  intros s fuel. induction fuel as [|fuel IH]; intros k sx Hk Hle Hlt; [lia|].
  cbn [split255_loop].
  destruct (255 * k + 255 <=? String.length s)%nat eqn:E.
  - apply Nat.leb_le in E.
    replace (255 * k + 255)%nat with (255 * S k)%nat by lia.
    apply IH; [rewrite length_app; simpl; lia|lia|lia].
  - apply Nat.leb_gt in E. rewrite length_app. cbn [length].
    assert (String.length s / 255 = k)%nat as ->; [|lia].
    symmetry. apply (Nat.div_unique _ _ _ (String.length s - 255 * k)); lia.
Qed.

Lemma split255_count : forall s, length (split255 s) = (String.length s / 255 + 1)%nat.
Proof.
  intro s. unfold split255.
  destruct (String.length s <? 255)%nat eqn:E.
  - apply Nat.ltb_lt in E. cbn [length]. rewrite Nat.div_small by exact E. reflexivity.
  - apply Nat.ltb_ge in E.
    exact (split255_loop_count s (S (String.length s)) 0 [] eq_refl ltac:(lia) ltac:(lia)).
Qed.

(** X3: [split255] loses no byte and respects the 255-byte limit of a DNS
    character string: its chunks concatenate to the input, none is longer
    than 255 bytes, and there are [len(s)/255 + 1] of them. *)
Theorem split255_chunks : forall s,
  fold_right String.append "" (split255 s) = s
  /\ Forall (fun c => String.length c <= 255)%nat (split255 s)
  /\ length (split255 s) = (String.length s / 255 + 1)%nat.
Proof.
  intro s. destruct (split255_concat_bound s) as [H1 H2].
  split; [exact H1|split; [exact H2|apply split255_count]].
Qed.

(** X4: every TXT answer carries one non-empty stored text, in order: its
    character strings concatenate to that text and none exceeds 255 bytes. *)
Theorem TXT_chunks_reassemble : forall redis name z r,
  map (fun rr => match Data rr with DTXT l => fold_right String.append "" l | _ => "" end)
      (fst (TXT redis name z (Some r)))
  = map Text (filter (fun t => negb (String.eqb (Text t) "")) (rec_TXT r))
  /\ Forall (fun rr => match Data rr with
                       | DTXT l => Forall (fun c => String.length c <= 255)%nat l
                       | _ => False end)
            (fst (TXT redis name z (Some r))).
Proof.
  intros redis name z r. unfold TXT. cbn [fst].
  induction (rec_TXT r) as [|t l [IH1 IH2]]; simpl; [split; constructor|].
  destruct (String.eqb (Text t) ""); simpl; [split; assumption|].
  destruct (split255_concat_bound (Text t)) as [H1 H2].
  split; [f_equal; assumption|constructor; assumption].
Qed.

Lemma A_glue : forall redis name z record, Forall (is_glue name) (fst (A redis name z record)).
Proof.
  intros. unfold A. destruct record as [r|]; [|constructor]. cbn [fst].
  apply Forall_flat_map_intro. intro a.
  destruct (Ip a); [constructor; [split; [reflexivity|left; reflexivity]|constructor]|constructor].
Qed.

Lemma AAAA_glue : forall redis name z record, Forall (is_glue name) (fst (AAAA redis name z record)).
Proof.
  intros. unfold AAAA. destruct record as [r|]; [|constructor]. cbn [fst].
  apply Forall_flat_map_intro. intro a.
  destruct (Ip a); [constructor; [split; [reflexivity|right; left; reflexivity]|constructor]|constructor].
Qed.

Lemma CNAME_glue : forall redis name z record, Forall (is_glue name) (fst (CNAME redis name z record)).
Proof.
  intros. unfold CNAME. destruct record as [r|]; [|constructor]. cbn [fst].
  apply Forall_flat_map_intro. intro c.
  destruct (String.eqb (Host c) "");
    [constructor|constructor; [split; [reflexivity|right; right; reflexivity]|constructor]].
Qed.

Lemma hosts_glue : forall json redis name z, Forall (is_glue name) (hosts json redis name z).
Proof.
  intros. unfold hosts. destruct (String.eqb (findLocation name z) ""); [constructor|].
  apply Forall_app; split; [apply A_glue|].
  apply Forall_app; split; [apply AAAA_glue|apply CNAME_glue].
Qed.

Lemma withGlue_extras : forall {T} json redis z (target : T -> string) mk l,
  Forall (fun rr => exists x, In x l /\ is_glue (target x) rr)
         (snd (withGlue json redis z target mk l)).
Proof.
  intros T json redis z target mk l. induction l as [|x l IH]; simpl; [constructor|].
  destruct (withGlue json redis z target mk l) as [ans ext]. cbn [snd] in IH.
  assert (Hl : Forall (fun rr => exists y, In y (x :: l) /\ is_glue (target y) rr) ext).
  { eapply Forall_impl; [|exact IH]. intros rr [y [Hy G]]. exists y. split; [right|]; assumption. }
  destruct (String.eqb (target x) ""); cbn [snd]; [exact Hl|].
  apply Forall_app; split; [|exact Hl].
  eapply Forall_impl; [|apply hosts_glue]. intros rr G. exists x. split; [left; reflexivity|exact G].
Qed.

(** X5: glue. [hosts] yields only A, AAAA and CNAME records owned by the
    target host, and every additional record of an NS, MX or SRV answer set
    is such a glue record of one of the listed targets. *)
Theorem glue_records_only : forall json redis name z r,
  Forall (is_glue name) (hosts json redis name z)
  /\ Forall (fun rr => exists n, In n (rec_NS r) /\ is_glue (Host n) rr)
            (snd (NS json redis name z (Some r)))
  /\ Forall (fun rr => exists m, In m (rec_MX r) /\ is_glue (mx_Host m) rr)
            (snd (MX json redis name z (Some r)))
  /\ Forall (fun rr => exists s, In s (rec_SRV r) /\ is_glue (Target s) rr)
            (snd (SRV json redis name z (Some r))).
Proof.
  intros. split; [apply hosts_glue|].
  split; [apply withGlue_extras|split; apply withGlue_extras].
Qed.

Lemma flat_map_single_length : forall {X Y} (f : X -> list Y) (keep : X -> bool) l,
  (forall x, length (f x) = if keep x then 1 else 0)%nat ->
  length (flat_map f l) = length (filter keep l).
Proof.
  intros X Y f keep l H. induction l as [|x l IH]; simpl; [reflexivity|].
  rewrite length_app, H, IH. destruct (keep x); reflexivity.
Qed.

Lemma withGlue_answers : forall {T} json redis z (target : T -> string) mk (P : RR -> Prop) l,
  (forall x, P (mk x)) ->
  Forall P (fst (withGlue json redis z target mk l))
  /\ length (fst (withGlue json redis z target mk l))
     = length (filter (fun x => negb (String.eqb (target x) "")) l).
Proof.
  intros T json redis z target mk P l HP. induction l as [|x l [IH1 IH2]]; simpl; [split; constructor|].
  destruct (withGlue json redis z target mk l) as [ans ext]. cbn [fst] in *.
  destruct (String.eqb (target x) ""); simpl; [split; assumption|].
  split; [constructor; auto|f_equal; exact IH2].
Qed.

(** X6: every synthesizer answers with one record per usable entry of the
    stored record (an address, a non-empty host, text or target, a CAA entry
    with tag and value), owned by [dns.Fqdn(name)], of its own type and of
    class IN. *)
Theorem answers_shape : forall json redis name z r,
  Forall (owned name TypeA) (fst (A redis name z (Some r)))
  /\ length (fst (A redis name z (Some r)))
     = length (filter (fun a => match Ip a with Some _ => true | None => false end) (rec_A r))
  /\ Forall (owned name TypeAAAA) (fst (AAAA redis name z (Some r)))
  /\ length (fst (AAAA redis name z (Some r)))
     = length (filter (fun a => match Ip a with Some _ => true | None => false end) (rec_AAAA r))
  /\ Forall (owned name TypeCNAME) (fst (CNAME redis name z (Some r)))
  /\ length (fst (CNAME redis name z (Some r)))
     = length (filter (fun c => negb (String.eqb (Host c) "")) (rec_CNAME r))
  /\ Forall (owned name TypeTXT) (fst (TXT redis name z (Some r)))
  /\ length (fst (TXT redis name z (Some r)))
     = length (filter (fun t => negb (String.eqb (Text t) "")) (rec_TXT r))
  /\ Forall (owned name TypeCAA) (fst (CAA redis name z (Some r)))
  /\ length (fst (CAA redis name z (Some r)))
     = length (filter (fun c => negb (String.eqb (Value c) "" || String.eqb (Tag c) "")) (rec_CAA r))
  /\ Forall (owned name TypeNS) (fst (NS json redis name z (Some r)))
  /\ length (fst (NS json redis name z (Some r)))
     = length (filter (fun n => negb (String.eqb (Host n) "")) (rec_NS r))
  /\ Forall (owned name TypeMX) (fst (MX json redis name z (Some r)))
  /\ length (fst (MX json redis name z (Some r)))
     = length (filter (fun m => negb (String.eqb (mx_Host m) "")) (rec_MX r))
  /\ Forall (owned name TypeSRV) (fst (SRV json redis name z (Some r)))
  /\ length (fst (SRV json redis name z (Some r)))
     = length (filter (fun s => negb (String.eqb (Target s) "")) (rec_SRV r)).
Proof.
  intros json redis name z r.
  unfold A, AAAA, CNAME, TXT, CAA, NS, MX, SRV. cbn [fst].
  repeat split.
  all: first
    [ apply Forall_flat_map_intro; intro e;
      repeat match goal with
             | |- Forall _ (match ?o with _ => _ end) => destruct o
             end;
      repeat constructor
    | apply flat_map_single_length; intro e;
      match goal with
      | |- context [match ?o with _ => _ end] => destruct o
      end; reflexivity
    | refine (proj1 (withGlue_answers _ _ _ _ _ _ _ _)); intro;
      split; [reflexivity|split; reflexivity]
    | exact (proj2 (withGlue_answers json redis z _ _ (fun _ => True) _ (fun _ => I))) ].
Qed.

(** X7: when every command of the backend fails, a zone transfer is
    empty and no error is reported: [get] turns each failed [HGET] into the
    nil record, for which no synthesizer, the SOA one included, answers. *)
Theorem AXFR_backend_down : forall json now redis conn z,
  pool redis = Some conn ->
  (forall cmd, exists e, Do conn cmd = DoErr e) ->
  AXFR json now redis z = [].
Proof.
  intros json now redis conn z Hp Hdown.
  assert (Hget : forall k z', get json redis k z' = None).
  { intros k z'. unfold get. rewrite Hp.
    destruct (Hdown ["HGET"; keyPrefix redis ++ Name z' ++ keySuffix redis;
                     if String.eqb k (Name z') then "@" else k]) as [e ->].
    reflexivity. }
  unfold AXFR.
  assert (Hf : forall l, fold_left (axfrStep json now redis z) l ([], [], []) = ([], [], [])).
  { induction l as [|key l IH]; [reflexivity|]. cbn [fold_left].
    replace (axfrStep json now redis z ([], [], []) key) with (@nil RR, @nil RR, @nil RR);
      [exact IH|].
    unfold axfrStep. destruct (String.eqb key "@"); rewrite Hget; reflexivity. }
  rewrite Hf. reflexivity.
Qed.

Lemma AXFR_backend_down_witness :
  pool (mkRedis "" "" 0 (Some (error_always "ERR backend"))) = Some (error_always "ERR backend")
  /\ (forall cmd, exists e, Do (error_always "ERR backend") cmd = DoErr e)
  /\ AXFR json_demo 0 (mkRedis "" "" 0 (Some (error_always "ERR backend"))) zone_demo = [].
Proof.
  assert (H1 : pool (mkRedis "" "" 0 (Some (error_always "ERR backend")))
               = Some (error_always "ERR backend")) by reflexivity.
  assert (H2 : forall cmd, exists e, Do (error_always "ERR backend") cmd = DoErr e)
    by (intro cmd; exists "ERR backend"; reflexivity).
  split; [exact H1|]. split; [exact H2|].
  exact (AXFR_backend_down json_demo 0 _ _ zone_demo H1 H2).
Defined.

Lemma scanKeys_pages : forall pages,
  scanKeys (map (fun ks => RArr (map RBulk ks)) pages) = Ok (concat pages).
Proof.
  induction pages as [|ks pages IH]; [reflexivity|].
  cbn [map scanKeys concat]. rewrite IH.
  generalize (concat pages) as rest. intro rest.
  induction ks as [|k ks IHk]; [reflexivity|].
  cbn [map app]. cbn beta iota fix.
  match goal with
  | |- context [?f (map RBulk ks)] =>
      match type of IHk with
      | context [f (map RBulk ks)] => destruct (f (map RBulk ks))
      end
  end; [|discriminate|discriminate].
  injection IHk as E. apply app_inv_tail in E. subst. reflexivity.
Qed.

(** X8: [decodeScanReply] on a well-formed [SCAN] reply (a cursor and pages
    of keys) returns the parsed cursor with the keys of all pages in order;
    a cursor that is not a decimal integer is the returned error. *)
Theorem decodeScanReply_pages : forall cs pages,
  decodeScanReply (RArr (RBulk cs :: map (fun ks => RArr (map RBulk ks)) pages))
  = match Atoi cs with
    | Some c => Ok (c, concat pages)
    | None => Err "strconv.Atoi: invalid syntax"
    end.
Proof.
  intros cs pages. unfold decodeScanReply.
  destruct (Atoi cs); [|reflexivity]. rewrite scanKeys_pages. reflexivity.
Qed.

Lemma TrimPrefix_empty : forall s, TrimPrefix s "" = s.
Proof.
  intro s. unfold TrimPrefix, HasPrefix.
  replace (String.prefix "" s) with true by (destruct s; reflexivity).
  simpl. rewrite Nat.sub_0_r. apply substring_all.
Qed.

Definition zones_inv (seen zones : list string) : Prop :=
  NoDup zones /\ forall x, In x seen <-> In x zones.

Lemma addZones_inv : forall keys seen zones,
  zones_inv seen zones ->
  zones_inv (fst (addZones "" "" keys seen zones)) (snd (addZones "" "" keys seen zones)).
Proof.
  induction keys as [|k keys IH]; intros seen zones [Hnd Hin]; [split; assumption|].
  cbn [addZones]. rewrite !TrimPrefix_empty.
  destruct (mem k seen) eqn:Hm; apply IH; [split; assumption|].
  assert (Hk : ~ In k zones).
  { intro H. apply Hin, mem_In in H. congruence. }
  split.
  - apply NoDup_app; [exact Hnd|repeat constructor; intro H; inversion H|].
    intros a Ha [E|[]]. subst. contradiction.
  - intro x. rewrite in_app_iff. simpl. rewrite Hin. tauto.
Qed.

Lemma scanLoop_nodup : forall fuel conn cursor seen zones result,
  zones_inv seen zones ->
  scanLoop fuel conn "" "" cursor seen zones = Ok result -> NoDup result.
Proof.
  induction fuel as [|fuel IH]; intros conn cursor seen zones result Hinv H; [discriminate|].
  cbn [scanLoop] in H.
  destruct (Do conn _) as [reply|e]; [|discriminate].
  destruct (decodeScanReply reply) as [[cursor' keys]| |]; try discriminate.
  pose proof (addZones_inv keys seen zones Hinv) as Hi.
  destruct (addZones "" "" keys seen zones) as [seen' zones'].
  destruct (cursor' =? 0)%Z.
  - injection H as <-. exact (proj1 Hi).
  - exact (IH _ _ _ _ _ Hi H).
Qed.

(** X9: with no key prefix and no key suffix, [LoadZones] lists every zone
    at most once, even when [SCAN] returns a key on several pages. *)
Theorem LoadZones_unprefixed_no_duplicates : forall fuel redis zones,
  keyPrefix redis = "" -> keySuffix redis = "" ->
  LoadZones fuel redis = Ok zones -> NoDup zones.
Proof.
  intros fuel redis zones Hp Hs H. unfold LoadZones in H.
  destruct (pool redis) as [conn|]; [|discriminate].
  rewrite Hp, Hs in H.
  exact (scanLoop_nodup fuel conn 0 [] [] zones (conj (NoDup_nil _) (fun x => iff_refl _)) H).
Qed.

Lemma LoadZones_unprefixed_no_duplicates_witness :
  keyPrefix (mkRedis "" "" 0 (Some (scan_pages pages_plain))) = ""
  /\ keySuffix (mkRedis "" "" 0 (Some (scan_pages pages_plain))) = ""
  /\ LoadZones 10 (mkRedis "" "" 0 (Some (scan_pages pages_plain))) = Ok ["example."; "other."]
  /\ NoDup ["example."; "other."].
Proof.
  assert (H : LoadZones 10 (mkRedis "" "" 0 (Some (scan_pages pages_plain))) = Ok ["example."; "other."])
    by (vm_compute; reflexivity).
  split; [reflexivity|split; [reflexivity|split; [exact H|]]].
  exact (LoadZones_unprefixed_no_duplicates 10 (mkRedis "" "" 0 (Some (scan_pages pages_plain)))
           _ eq_refl eq_refl H).
Defined.

Lemma strings_elems_bulk : forall l, strings_elems (map RBulk l) = Some l.
Proof. induction l as [|x l IH]; simpl; [reflexivity|now rewrite IH]. Qed.

Lemma fold_insertLocation : forall vals acc,
  NoDup acc ->
  NoDup (fold_left insertLocation vals acc)
  /\ forall k, mem k (fold_left insertLocation vals acc) = mem k acc || mem k vals.
Proof.
  induction vals as [|v vals IH]; intros acc Hnd.
  - split; [exact Hnd|]. intro k. simpl. now rewrite orb_false_r.
  - cbn [fold_left].
    destruct (mem v acc) eqn:Hv.
    + replace (insertLocation acc v) with acc by (unfold insertLocation; now rewrite Hv).
      destruct (IH acc Hnd) as [H1 H2]. split; [exact H1|].
      intro k. rewrite H2.
      change (mem k (v :: vals)) with (String.eqb k v || mem k vals).
      destruct (String.eqb k v) eqn:E; [|reflexivity].
      apply String.eqb_eq in E. subst. rewrite Hv. reflexivity.
    + replace (insertLocation acc v) with (acc ++ [v])%list
        by (unfold insertLocation; now rewrite Hv).
      assert (Hnd' : NoDup (acc ++ [v])%list).
      { apply NoDup_app; [exact Hnd|repeat constructor; intro H; inversion H|].
        intros a Ha [E|[]]. subst. apply mem_In in Ha. congruence. }
      destruct (IH _ Hnd') as [H1 H2]. split; [exact H1|].
      intro k. rewrite H2. unfold mem. rewrite existsb_app. cbn [existsb].
      rewrite orb_false_r, <- orb_assoc. reflexivity.
Qed.

(** X10: [load] on a backend whose zone hash has the fields [fields] yields
    the zone of that name whose locations are exactly these fields, each
    once. *)
Theorem load_locations : forall redis zone conn fields,
  pool redis = Some conn ->
  Do conn ["HKEYS"; keyPrefix redis ++ zone ++ keySuffix redis] = DoOk (RArr (map RBulk fields)) ->
  exists z, load redis zone = Some z /\ Name z = zone /\ NoDup (Locations z)
            /\ forall k, keyExists k z = mem k fields.
Proof.
  intros redis zone conn fields Hp Hdo. unfold load. rewrite Hp, Hdo.
  cbn [Strings]. rewrite strings_elems_bulk.
  eexists. split; [reflexivity|]. cbn [Name Locations]. split; [reflexivity|].
  destruct (fold_insertLocation fields [] (NoDup_nil _)) as [H1 H2].
  split; [exact H1|]. intro k. unfold keyExists. cbn [Locations]. rewrite H2. reflexivity.
Qed.

Lemma load_locations_witness :
  pool redis_hkeys = Some (reply_always (RArr [RBulk "@"; RBulk "www"; RBulk "www"]))
  /\ Do (reply_always (RArr [RBulk "@"; RBulk "www"; RBulk "www"]))
        ["HKEYS"; keyPrefix redis_hkeys ++ "example." ++ keySuffix redis_hkeys]
     = DoOk (RArr (map RBulk ["@"; "www"; "www"]))
  /\ exists z, load redis_hkeys "example." = Some z /\ Name z = "example."
               /\ NoDup (Locations z) /\ forall k, keyExists k z = mem k ["@"; "www"; "www"].
Proof.
  split; [reflexivity|split; [reflexivity|]].
  exact (load_locations redis_hkeys "example." _ ["@"; "www"; "www"] eq_refl eq_refl).
Defined.

(** ** The row layout *)
Import Rows.

(** A parsed row yields at least one answer. *)
Lemma parse_answers_nonempty : forall ty name rData glue st answers extras st1,
  parseRecordValuesFromString ty name rData glue st = Ok ((answers, extras), st1) ->
  answers <> [].
Proof.
  intros ty name rData glue st answers extras st1 H.
  unfold parseRecordValuesFromString in H.
  destruct (Fields rData) as [|f0 [|f1 [|f2 [|f3 rest]]]]; try discriminate H.
  cbn [length Nat.ltb Nat.leb nth skipn] in H.
  destruct (negb (String.eqb ty f2)); [discriminate H|].
  destruct (Atoi f0) as [ttl|]; [|discriminate H].
  destruct (String.eqb ty "A").
  { injection H; intros; subst. discriminate. }
  destruct (String.eqb ty "NS").
  { cbn [parseNS] in H.
    destruct (negb (IsFqdn f3)); [discriminate H|].
    destruct (glue f3 st) as [[additional st2]| |]; try discriminate H.
    destruct (parseNS rest name _ glue st2) as [[[ans ext] st3]| |]; try discriminate H.
    injection H; intros; subst. discriminate. }
  destruct (String.eqb ty "SOA"); [|discriminate H].
  unfold parseSOA, bindO, atoiAt, index in H. cbn [nth_error] in H.
  repeat match type of H with
         | context [match ?x with _ => _ end] => destruct x; try discriminate H
         end.
  all: injection H; intros; subst; discriminate.
Qed.

(** The decaying-TTL step of [LoadZoneRecords], at any nesting depth. *)
Lemma LoadZoneRecords_at_decay : forall d redis ty name st answers extras st1,
  down st = false ->
  GET st (Key redis (ty ++ "/" ++ name)) <> "" ->
  parseRecordValuesFromString ty name (GET st (Key redis (ty ++ "/" ++ name)))
    (getAdditionalRecords (LoadZoneRecords_at d redis)) st = Ok ((answers, extras), st1) ->
  (TTL st (Key redis (ty ++ "/" ++ name ++ ":ttl")) = (-2)%Z ->
     exists a0 rest, answers = a0 :: rest
     /\ LoadZoneRecords_at (S d) redis ty name st =
          match SET_EX st1 (Key redis (ty ++ "/" ++ name ++ ":ttl")) (hTtl (Hdr a0)) (hTtl (Hdr a0)) with
          | Ok st2 => Ok ((answers, extras), st2)
          | Err e => Err ("error configuring TTL for " ++ (ty ++ "/" ++ name) ++ ": " ++ e)
          | Panic m => Panic m
          end)
  /\ (forall t, TTL st (Key redis (ty ++ "/" ++ name ++ ":ttl")) = t -> (0 <= t)%Z ->
       LoadZoneRecords_at (S d) redis ty name st
       = Ok ((map (setTtl (uint32 t)) answers, extras), st1)).
Proof.
  intros d redis ty name st answers extras st1 Hdown Hne Hparse.
  assert (Hk : ((ty ++ "/" ++ name) ++ ":ttl") = ty ++ "/" ++ name ++ ":ttl").
  { rewrite !string_append_assoc. reflexivity. }
  apply String.eqb_neq in Hne.
  split.
  - intros Httl.
    destruct answers as [|a0 rest] eqn:Ha.
    { exfalso. exact (parse_answers_nonempty _ _ _ _ _ _ _ _ Hparse eq_refl). }
    exists a0, rest. split; [reflexivity|].
    cbn [LoadZoneRecords_at]. rewrite Hdown, Hne, Hparse, Hk, Httl.
    cbn [bindO Z.eqb Pos.eqb]. reflexivity.
  - intros t Httl Ht.
    cbn [LoadZoneRecords_at]. rewrite Hdown, Hne, Hparse, Hk, Httl.
    cbn [bindO]. destruct (Z.eqb_spec t (-2)) as [E|E]; [lia|reflexivity].
Qed.

(** C3 (counterexample): the NS row of [store_ns] has a TTL key reporting
    2^32 + 5 seconds; the answer's TTL becomes 5, not the reported lifetime,
    and the lookup writes a TTL key: the one of the glue A record. *)
Lemma LoadZoneRecords_overwrite_counterexample :
  match LoadZoneRecords rows_redis "NS" "example." store_ns with
  | Ok ((answers, _), st') =>
      map (fun rr => hTtl (Hdr rr)) answers = [5%N]
      /\ sent st' = [["SET"; "A/ns1.example.:ttl"; "300"; "EX"; "300"]]
  | _ => False
  end.
Proof. vm_compute. split; reflexivity. Qed.

(** C3 (amended): when the backend reports -2 for the sibling TTL key, the
    parsed answers keep their TTLs and the function sends
    [SET ttlKey v EX v] with [v] the first answer's TTL, returning its error
    if the backend refuses it (as it does for [v = 0]); when the sibling key
    reports a remaining lifetime [t >= 0], every answer's TTL becomes
    [uint32(t)] ([t mod 2^32]) and the function writes nothing beyond what
    the glue lookups of an NS or SOA row write. *)
Theorem LoadZoneRecords_decaying_ttl : forall redis ty name st answers extras st1,
  down st = false ->
  GET st (Key redis (ty ++ "/" ++ name)) <> "" ->
  parseRecordValuesFromString ty name (GET st (Key redis (ty ++ "/" ++ name)))
    (getAdditionalRecords (LoadZoneRecords_at 1 redis)) st = Ok ((answers, extras), st1) ->
  (TTL st (Key redis (ty ++ "/" ++ name ++ ":ttl")) = (-2)%Z ->
     exists a0 rest, answers = a0 :: rest
     /\ LoadZoneRecords redis ty name st =
          match SET_EX st1 (Key redis (ty ++ "/" ++ name ++ ":ttl")) (hTtl (Hdr a0)) (hTtl (Hdr a0)) with
          | Ok st2 => Ok ((answers, extras), st2)
          | Err e => Err ("error configuring TTL for " ++ (ty ++ "/" ++ name) ++ ": " ++ e)
          | Panic m => Panic m
          end)
  /\ (forall t, TTL st (Key redis (ty ++ "/" ++ name ++ ":ttl")) = t -> (0 <= t)%Z ->
       LoadZoneRecords redis ty name st
       = Ok ((map (setTtl (uint32 t)) answers, extras), st1)).
Proof.
  intros redis ty name st answers extras st1 Hdown Hne Hparse.
  exact (LoadZoneRecords_at_decay 1 redis ty name st answers extras st1 Hdown Hne Hparse).
Qed.

(** The theorem of C3 applied to the A row of [store_a]. *)
Lemma LoadZoneRecords_decaying_ttl_witness :
  down store_a = false
  /\ GET store_a (Key rows_redis ("A" ++ "/" ++ "www.example.")) <> ""
  /\ parseRecordValuesFromString "A" "www.example." (GET store_a (Key rows_redis ("A" ++ "/" ++ "www.example.")))
       (getAdditionalRecords (LoadZoneRecords_at 1 rows_redis)) store_a
     = Ok ((answers_a, []), store_a)
  /\ (TTL store_a (Key rows_redis ("A" ++ "/" ++ "www.example." ++ ":ttl")) = (-2)%Z ->
       exists a0 rest, answers_a = a0 :: rest
       /\ LoadZoneRecords rows_redis "A" "www.example." store_a =
            match SET_EX store_a (Key rows_redis ("A" ++ "/" ++ "www.example." ++ ":ttl"))
                         (hTtl (Hdr a0)) (hTtl (Hdr a0)) with
            | Ok st2 => Ok ((answers_a, []), st2)
            | Err e => Err ("error configuring TTL for " ++ ("A" ++ "/" ++ "www.example.") ++ ": " ++ e)
            | Panic m => Panic m
            end)
  /\ (forall t, TTL store_a (Key rows_redis ("A" ++ "/" ++ "www.example." ++ ":ttl")) = t -> (0 <= t)%Z ->
       LoadZoneRecords rows_redis "A" "www.example." store_a
       = Ok ((map (setTtl (uint32 t)) answers_a, []), store_a)).
Proof.
  assert (Hd : down store_a = false) by reflexivity.
  assert (Hg : GET store_a (Key rows_redis ("A" ++ "/" ++ "www.example.")) <> "")
    by (vm_compute; discriminate).
  assert (Hp : parseRecordValuesFromString "A" "www.example."
                 (GET store_a (Key rows_redis ("A" ++ "/" ++ "www.example.")))
                 (getAdditionalRecords (LoadZoneRecords_at 1 rows_redis)) store_a
               = Ok ((answers_a, []), store_a)) by (vm_compute; reflexivity).
  split; [exact Hd|]. split; [exact Hg|]. split; [exact Hp|].
  exact (LoadZoneRecords_decaying_ttl rows_redis "A" "www.example." store_a answers_a [] store_a
           Hd Hg Hp).
Defined.

(** C10 (counterexample): a six-field SOA row whose serial is not a number
    does not panic: [parseSOA] returns the [strconv.Atoi] error before it
    reaches the missing fields. *)
Lemma parseSOA_short_row_error :
  parseRecordValuesFromString "SOA" "example." "300 IN SOA ns1.example. hostmaster abc"
    (getAdditionalRecords (LoadZoneRecords_at 1 rows_redis)) store_a
  = Err "strconv.Atoi: parsing abc: invalid syntax".
Proof. reflexivity. Qed.

(** C10 (amended): for every SOA row (requested type SOA, third field SOA,
    numeric TTL) of 4 to 9 fields, parsing never succeeds. Taking the fields
    from the serial on, it returns the [strconv.Atoi] error of the first
    present one that does not parse as an integer, and when all present
    ones parse it panics with an index out of range. The length guard only
    rejects rows of fewer than 4 fields. *)
Theorem parseSOA_short_row : forall name rData glue st,
  (4 <= length (Fields rData) < 10)%nat ->
  nth 2 (Fields rData) "" = "SOA" ->
  Atoi (nth 0 (Fields rData) "") <> None ->
  parseRecordValuesFromString "SOA" name rData glue st
    = match find (fun f => match Atoi f with Some _ => false | None => true end)
                 (skipn 5 (Fields rData)) with
      | Some f => Err ("strconv.Atoi: parsing " ++ f ++ ": invalid syntax")
      | None => Panic "runtime error: index out of range"
      end
  /\ is_ok (parseRecordValuesFromString "SOA" name rData glue st) = false
  /\ is_panic (parseRecordValuesFromString "SOA" name rData glue st)
     = forallb (fun f => match Atoi f with Some _ => true | None => false end)
               (skipn 5 (Fields rData)).
Proof.
  intros name rData glue st Hlen H2 H0.
  unfold parseRecordValuesFromString.
  destruct (Fields rData) as
    [|f0 [|f1 [|f2 [|f3 [|f4 [|f5 [|f6 [|f7 [|f8 [|f9 rest]]]]]]]]]];
    cbn [length nth] in Hlen, H2, H0 |- *; try lia; subst f2;
    destruct (Atoi f0) as [ttl|]; try congruence;
    cbn -[Atoi IsFqdn];
    repeat match goal with
           | |- context [match Atoi ?f with _ => _ end] => destruct (Atoi f)
           end;
    (split; [reflexivity|split; reflexivity]).
Qed.

(** The theorem of C10 applied to the six-field row of the counterexample,
    whose serial [abc] does not parse. *)
Lemma parseSOA_short_row_witness :
  (4 <= length (Fields "300 IN SOA ns1.example. hostmaster abc") < 10)%nat
  /\ nth 2 (Fields "300 IN SOA ns1.example. hostmaster abc") "" = "SOA"
  /\ Atoi (nth 0 (Fields "300 IN SOA ns1.example. hostmaster abc") "") <> None
  /\ parseRecordValuesFromString "SOA" "example." "300 IN SOA ns1.example. hostmaster abc" (getAdditionalRecords (LoadZoneRecords_at 1 rows_redis)) store_a
    = match find (fun f => match Atoi f with Some _ => false | None => true end)
                 (skipn 5 (Fields "300 IN SOA ns1.example. hostmaster abc")) with
      | Some f => Err ("strconv.Atoi: parsing " ++ f ++ ": invalid syntax")
      | None => Panic "runtime error: index out of range"
      end
  /\ is_ok (parseRecordValuesFromString "SOA" "example." "300 IN SOA ns1.example. hostmaster abc" (getAdditionalRecords (LoadZoneRecords_at 1 rows_redis)) store_a) = false
  /\ is_panic (parseRecordValuesFromString "SOA" "example." "300 IN SOA ns1.example. hostmaster abc" (getAdditionalRecords (LoadZoneRecords_at 1 rows_redis)) store_a)
     = forallb (fun f => match Atoi f with Some _ => true | None => false end)
               (skipn 5 (Fields "300 IN SOA ns1.example. hostmaster abc")).
Proof.
  assert (Hl : (4 <= length (Fields "300 IN SOA ns1.example. hostmaster abc") < 10)%nat) by (vm_compute; lia).
  assert (H2 : nth 2 (Fields "300 IN SOA ns1.example. hostmaster abc") "" = "SOA") by reflexivity.
  assert (H0 : Atoi (nth 0 (Fields "300 IN SOA ns1.example. hostmaster abc") "") <> None) by (vm_compute; discriminate).
  split; [exact Hl|]. split; [exact H2|]. split; [exact H0|].
  exact (parseSOA_short_row "example." "300 IN SOA ns1.example. hostmaster abc"
           (getAdditionalRecords (LoadZoneRecords_at 1 rows_redis)) store_a Hl H2 H0).
Defined.

(*** Further properties of the row layout and its configuration *)

Lemma substring_app_l : forall x y : string, substring 0 (String.length x) (x ++ y) = x.
Proof. induction x as [|c x IH]; intro y; [destruct y; reflexivity|simpl; now rewrite IH]. Qed.

Lemma substring_app_r : forall x y : string,
  substring (String.length x) (String.length y) (x ++ y) = y.
Proof. induction x as [|c x IH]; intro y; [apply substring_all|simpl; apply IH]. Qed.

Lemma prefix_app : forall p x : string, String.prefix p (p ++ x) = true.
Proof.
  induction p as [|c p IH]; intro x; [destruct x; reflexivity|].
  simpl. destruct (ascii_dec c c) as [_|n]; [apply IH|contradiction].
Qed.

Lemma HasSuffix_app : forall x s, HasSuffix (x ++ s) s = true.
Proof.
  intros x s. unfold HasSuffix. rewrite string_length_append.
  replace (String.length x + String.length s - String.length s)%nat with (String.length x) by lia.
  rewrite substring_app_r, String.eqb_refl, andb_true_r. apply Nat.leb_le. lia.
Qed.

Lemma TrimSuffix_app : forall x s, TrimSuffix (x ++ s) s = x.
Proof.
  intros x s. unfold TrimSuffix. rewrite HasSuffix_app, string_length_append.
  replace (String.length x + String.length s - String.length s)%nat with (String.length x) by lia.
  apply substring_app_l.
Qed.

Lemma TrimPrefix_app : forall p x, TrimPrefix (p ++ x) p = x.
Proof.
  intros p x. unfold TrimPrefix, HasPrefix. rewrite prefix_app, string_length_append.
  replace (String.length p + String.length x - String.length p)%nat with (String.length x) by lia.
  apply substring_app_r.
Qed.

Lemma ttl_writes_only_refl : forall st, ttl_writes_only st st.
Proof.
  intro st. split; [reflexivity|]. split; [reflexivity|].
  exists []. split; [symmetry; apply app_nil_r|constructor].
Qed.

Lemma ttl_writes_only_trans : forall s1 s2 s3,
  ttl_writes_only s1 s2 -> ttl_writes_only s2 s3 -> ttl_writes_only s1 s3.
Proof.
  intros s1 s2 s3 [D1 [B1 [c1 [S1 F1]]]] [D2 [B2 [c2 [S2 F2]]]].
  split; [congruence|]. split; [intros k Hk; rewrite B2, B1 by exact Hk; reflexivity|].
  exists (c1 ++ c2)%list. split; [rewrite S2, S1; symmetry; apply app_assoc|].
  apply Forall_app; split; assumption.
Qed.

Lemma SET_EX_ttl : forall st key v st',
  HasSuffix key ":ttl" = true -> SET_EX st key v v = Ok st' -> ttl_writes_only st st'.
Proof.
  intros st key v st' Hk H. unfold SET_EX in H.
  destruct (down st) eqn:Hd; [discriminate H|]. destruct (v =? 0)%N; [discriminate H|].
  injection H as <-. split; [cbn [down]; congruence|]. split.
  - intros k Hk'. cbn [db]. destruct (String.eqb_spec k key) as [->|]; [congruence|reflexivity].
  - eexists. split; [reflexivity|]. constructor; [|constructor].
    eexists key, _. split; [reflexivity|exact Hk].
Qed.

Lemma getAdditionalRecords_ok : forall load,
  (forall ty name st res st', load ty name st = Ok (res, st') -> ttl_writes_only st st') ->
  glue_ok (getAdditionalRecords load).
Proof.
  intros load Hl host st res st' H. unfold getAdditionalRecords in H.
  destruct (load "A" host st) as [[[ans ext] st1]| |] eqn:E; try discriminate H.
  cbn [bindO] in H. destruct ext; [|discriminate H]. injection H as _ <-.
  exact (Hl _ _ _ _ _ E).
Qed.

Lemma parseNS_ttl_only : forall hs zn header g st res st',
  glue_ok g -> parseNS hs zn header g st = Ok (res, st') -> ttl_writes_only st st'.
Proof.
  induction hs as [|h hs IH]; intros zn header g st res st' Hg H; cbn [parseNS] in H.
  - injection H as _ <-. apply ttl_writes_only_refl.
  - destruct (negb (IsFqdn h)); [discriminate H|].
    destruct (g h st) as [[add st1]| |] eqn:E1; try discriminate H.
    destruct (parseNS hs zn header g st1) as [[[ans ext] st2]| |] eqn:E2; try discriminate H.
    injection H as _ <-.
    exact (ttl_writes_only_trans _ _ _ (Hg _ _ _ _ E1) (IH _ _ _ _ _ _ Hg E2)).
Qed.

Lemma parseSOA_glue : forall fields zn header g st res st',
  parseSOA fields zn header g st = Ok (res, st') -> exists ns r, g ns st = Ok (r, st').
Proof.
  intros fields zn header g st res st' H. unfold parseSOA, bindO in H.
  repeat (cbv beta in H;
          match type of H with
          | context [match ?x with _ => _ end] => destruct x eqn:?; try discriminate H
          end).
  all: injection H as _ <-; eexists _, _; eassumption.
Qed.

Lemma parse_ttl_only : forall ty name rData g st res st',
  glue_ok g -> parseRecordValuesFromString ty name rData g st = Ok (res, st') ->
  ttl_writes_only st st'.
Proof.
  intros ty name rData g st res st' Hg H. unfold parseRecordValuesFromString in H. cbv zeta in H.
  destruct (_ <? 4)%nat; [discriminate H|].
  destruct (negb _); [discriminate H|].
  destruct (Atoi _) as [ttl|]; [|discriminate H].
  destruct (String.eqb ty "A"); [injection H as _ <-; apply ttl_writes_only_refl|].
  destruct (String.eqb ty "NS"); [exact (parseNS_ttl_only _ _ _ _ _ _ _ Hg H)|].
  destruct (String.eqb ty "SOA"); [|discriminate H].
  destruct (parseSOA_glue _ _ _ _ _ _ _ H) as [ns [r E]]. exact (Hg _ _ _ _ E).
Qed.

Lemma LoadZoneRecords_at_ttl_only : forall d redis ty name st res st',
  LoadZoneRecords_at d redis ty name st = Ok (res, st') -> ttl_writes_only st st'.
Proof.
  induction d as [|d IH]; intros redis ty name st res st' H; cbn [LoadZoneRecords_at] in H;
  destruct (down st); try discriminate H;
  destruct (String.eqb _ ""); try discriminate H;
  lazymatch type of H with
  | context [parseRecordValuesFromString _ _ _ ?g st] =>
      assert (Hg : glue_ok g);
      [ first [ intros ? ? ? ? E; discriminate E
              | apply getAdditionalRecords_ok; exact (IH redis) ] | ]
  end;
  destruct (parseRecordValuesFromString _ _ _ _ st) as [[[ans ext] st1]| |] eqn:Hp;
    try discriminate H;
  cbn [bindO] in H; pose proof (parse_ttl_only _ _ _ _ _ _ _ Hg Hp) as T1;
  (destruct (_ =? -2)%Z; [|injection H as _ <-; exact T1]);
  (destruct ans as [|a0 ans]; [discriminate H|]);
  destruct (SET_EX _ _ _ _) as [st2| |] eqn:Hs; try discriminate H;
  injection H as _ <-;
  refine (ttl_writes_only_trans _ _ _ T1 (SET_EX_ttl _ _ _ _ _ Hs));
  unfold Key; rewrite <- string_append_assoc; apply HasSuffix_app.
Qed.

Lemma SET_EX_db : forall st key value seconds st',
  SET_EX st key value seconds = Ok st' ->
  down st' = down st
  /\ forall k, db st' k = if String.eqb k key
                         then Some (Z_to_string (Z.of_N value), Some (Z.of_N seconds))
                         else db st k.
Proof.
  intros st key value seconds st' H. unfold SET_EX in H.
  destruct (down st); [discriminate H|]. destruct (seconds =? 0)%N; [discriminate H|].
  injection H as <-. split; reflexivity.
Qed.

(** A row of type [A] is parsed without the glue lookup and without the
    backend: the state is returned unchanged, and every answer carries the
    row's TTL. *)
Lemma parse_A_no_glue : forall name rData g st res st',
  parseRecordValuesFromString "A" name rData g st = Ok (res, st') ->
  st' = st /\ snd res = []
  /\ (forall g' st0, parseRecordValuesFromString "A" name rData g' st0 = Ok (res, st0))
  /\ exists ttl, Forall (fun r => hTtl (Hdr r) = uint32 ttl) (fst res).
Proof.
  intros name rData g st res st' H. unfold parseRecordValuesFromString in H |- *.
  cbv zeta in H |- *.
  destruct (length (Fields rData) <? 4)%nat; [discriminate H|].
  destruct (negb (String.eqb "A" (nth 2 (Fields rData) ""))); [discriminate H|].
  destruct (Atoi (nth 0 (Fields rData) "")) as [ttl|]; [|discriminate H].
  rewrite String.eqb_refl in H |- *. injection H as <- <-.
  split; [reflexivity|]. split; [reflexivity|]. split; [reflexivity|].
  exists ttl. cbn [fst]. unfold parseA. apply Forall_forall.
  intros r Hr. apply in_map_iff in Hr as [ip [<- _]]. reflexivity.
Qed.

Lemma uint32_idem : forall x, uint32 (Z.of_N (uint32 x)) = uint32 x.
Proof.
  intro x. unfold uint32. pose proof (Z.mod_pos_bound x (2 ^ 32) eq_refl).
  rewrite Z2N.id by lia. now rewrite Z.mod_mod by discriminate.
Qed.

Lemma setTtl_same : forall t l, Forall (fun r => hTtl (Hdr r) = t) l -> map (setTtl t) l = l.
Proof.
  intros t l H. induction H as [|[[n ty c tt] d] l Hr _ IH]; [reflexivity|].
  cbn [map setTtl Hdr hTtl hName Rrtype Class Data] in *. subst tt. now rewrite IH.
Qed.

Lemma parse_unknown_type : forall ty name rData g st,
  ty <> "A" -> ty <> "NS" -> ty <> "SOA" ->
  exists e, parseRecordValuesFromString ty name rData g st = Err e.
Proof.
  intros ty name rData g st HA HNS HSOA. unfold parseRecordValuesFromString. cbv zeta.
  destruct (_ <? 4)%nat; [eexists; reflexivity|].
  destruct (negb _); [eexists; reflexivity|].
  destruct (Atoi _); [|eexists; reflexivity].
  apply String.eqb_neq in HA, HNS, HSOA. rewrite HA, HNS, HSOA. eexists; reflexivity.
Qed.

Lemma strings_elems_map : forall (f : string -> string) l,
  Agg.strings_elems (map (fun z => Agg.RBulk (f z)) l) = Some (map f l).
Proof. induction l as [|x l IH]; [reflexivity|cbn [map Agg.strings_elems]; now rewrite IH]. Qed.

Lemma parseNS_shape : forall hs zn header g st ans ext st',
  parseNS hs zn header g st = Ok ((ans, ext), st') ->
  Forall (fun h => IsFqdn h = true) hs /\ map Data ans = map RNS hs
  /\ Forall (fun r => Hdr r = mkHdr zn TypeNS (Class header) (hTtl header)) ans.
Proof.
  induction hs as [|h hs IH]; intros zn header g st ans ext st' H; cbn [parseNS] in H.
  - injection H as <- <- _. split; [constructor|split; [reflexivity|constructor]].
  - destruct (IsFqdn h) eqn:Hf; [|discriminate H]. cbn [negb] in H.
    destruct (g h st) as [[add st1]| |]; try discriminate H.
    destruct (parseNS hs zn header g st1) as [[[ans' ext'] st2]| |] eqn:E; try discriminate H.
    injection H as <- <- _. destruct (IH _ _ _ _ _ _ _ E) as [F [Md Hh]].
    split; [constructor; assumption|]. split; [cbn [map Data]; now rewrite Md|].
    constructor; [reflexivity|exact Hh].
Qed.

Lemma call_username : forall r s, Setup.username (Setup.call r s) = Setup.username r.
Proof. intros r []; reflexivity. Qed.

Lemma fold_call_username : forall calls r,
  Setup.username (fold_left Setup.call calls r) = Setup.username r.
Proof.
  induction calls as [|s calls IH]; intro r; [reflexivity|].
  cbn [fold_left]. rewrite IH. apply call_username.
Qed.

(** X11: [LoadZoneRecords] of a type other than A, NS and SOA always fails
    with an error, whatever the backend holds. *)
Theorem LoadZoneRecords_unsupported_type : forall redis ty name st,
  ty <> "A" -> ty <> "NS" -> ty <> "SOA" ->
  exists e, LoadZoneRecords redis ty name st = Err e.
Proof.
  intros redis ty name st HA HNS HSOA. unfold LoadZoneRecords. cbn [LoadZoneRecords_at].
  destruct (down st); [eexists; reflexivity|].
  destruct (String.eqb _ ""); [eexists; reflexivity|].
  lazymatch goal with
  | |- context [parseRecordValuesFromString _ _ ?r ?g st] =>
      destruct (parse_unknown_type ty name r g st HA HNS HSOA) as [e ->]
  end.
  eexists; reflexivity.
Qed.

Lemma LoadZoneRecords_unsupported_type_witness :
  "AAAA" <> "A" /\ "AAAA" <> "NS" /\ "AAAA" <> "SOA"
  /\ exists e, LoadZoneRecords rows_redis "AAAA" "www.example." store_a = Err e.
Proof.
  assert (H1 : "AAAA" <> "A") by discriminate.
  assert (H2 : "AAAA" <> "NS") by discriminate.
  assert (H3 : "AAAA" <> "SOA") by discriminate.
  split; [exact H1|]. split; [exact H2|]. split; [exact H3|].
  exact (LoadZoneRecords_unsupported_type rows_redis "AAAA" "www.example." store_a H1 H2 H3).
Defined.

Lemma LoadZoneRecords_at_A_repeat : forall d redis name st answers extras st2,
  LoadZoneRecords_at (S d) redis "A" name st = Ok ((answers, extras), st2) ->
  LoadZoneRecords_at (S d) redis "A" name st2 = Ok ((answers, extras), st2).
Proof.
  intros d redis name st answers extras st2 H.
  cbn [LoadZoneRecords_at] in H |- *.
  destruct (down st) eqn:Hd; [discriminate H|].
  destruct (String.eqb (GET st (Key redis ("A" ++ "/" ++ name))) "") eqn:Hg; [discriminate H|].
  destruct (parseRecordValuesFromString "A" name (GET st (Key redis ("A" ++ "/" ++ name)))
              (getAdditionalRecords (LoadZoneRecords_at d redis)) st)
    as [[[ans ext] st1]| |] eqn:Hp; try discriminate H.
  destruct (parse_A_no_glue _ _ _ _ _ _ Hp) as [-> [Hext [Hre [ttl Httl]]]].
  cbn [fst snd] in Hext, Httl. subst ext. cbn [bindO] in H.
  destruct (TTL st (Key redis (("A" ++ "/" ++ name) ++ ":ttl")) =? -2)%Z eqn:Ht.
  2: { injection H as <- <- <-. rewrite Hd, Hg, Hp. cbn [bindO]. rewrite Ht. reflexivity. }
  destruct ans as [|a0 rest]; [discriminate H|].
  destruct (SET_EX st (Key redis (("A" ++ "/" ++ name) ++ ":ttl")) (hTtl (Hdr a0)) (hTtl (Hdr a0)))
    as [st3| |] eqn:Hs; try discriminate H.
  injection H as <- <- <-.
  assert (Hneq : String.eqb (Key redis ("A" ++ "/" ++ name))
                            (Key redis (("A" ++ "/" ++ name) ++ ":ttl")) = false).
  { apply String.eqb_neq. intro E. apply (f_equal String.length) in E.
    unfold Key in E. rewrite !string_length_append in E. simpl in E. lia. }
  destruct (SET_EX_db _ _ _ _ _ Hs) as [Hd3 Hdb].
  rewrite Hd in Hd3.
  assert (Hg3 : GET st3 (Key redis ("A" ++ "/" ++ name)) = GET st (Key redis ("A" ++ "/" ++ name))).
  { unfold GET. rewrite Hdb, Hneq. reflexivity. }
  assert (Ht3 : TTL st3 (Key redis (("A" ++ "/" ++ name) ++ ":ttl")) = Z.of_N (hTtl (Hdr a0))).
  { unfold TTL. rewrite Hdb, String.eqb_refl. reflexivity. }
  rewrite Hd3, Hg3, Hg, Hre. cbn [bindO]. rewrite Ht3.
  destruct (Z.eqb_spec (Z.of_N (hTtl (Hdr a0))) (-2)) as [E|_]; [lia|].
  inversion Httl as [|? ? Ha0 _]. rewrite Ha0, uint32_idem, setTtl_same by exact Httl.
  reflexivity.
Qed.

(** X12: an A lookup repeated on the backend state left by a successful
    first lookup returns the same answers and writes nothing more: the TTL
    key written by the first lookup reports the answers' own TTL. *)
Theorem LoadZoneRecords_A_repeat : forall redis name st answers extras st2,
  LoadZoneRecords redis "A" name st = Ok ((answers, extras), st2) ->
  LoadZoneRecords redis "A" name st2 = Ok ((answers, extras), st2).
Proof.
  intros redis name st answers extras st2 H.
  exact (LoadZoneRecords_at_A_repeat 1 redis name st answers extras st2 H).
Qed.

Lemma LoadZoneRecords_A_repeat_witness :
  exists answers extras st2,
    LoadZoneRecords rows_redis "A" "www.example." store_a = Ok ((answers, extras), st2)
    /\ answers = answers_a
    /\ LoadZoneRecords rows_redis "A" "www.example." st2 = Ok ((answers, extras), st2).
Proof.
  destruct (LoadZoneRecords rows_redis "A" "www.example." store_a)
    as [[[ans ext] st2]| |] eqn:E; [|vm_compute in E; discriminate E..].
  exists ans, ext, st2. split; [reflexivity|]. split.
  - vm_compute in E. injection E as <- _ _. reflexivity.
  - exact (LoadZoneRecords_A_repeat rows_redis "www.example." store_a ans ext st2 E).
Defined.

(** X13: a successful [LoadZoneRecords] leaves the data rows alone: the
    only keys it changes end in [:ttl], and the only commands it sends are
    [SET k v EX v] on such keys (its own TTL key or those of its glue
    lookups). *)
Theorem LoadZoneRecords_writes_only_ttl_keys : forall redis ty name st res st',
  LoadZoneRecords redis ty name st = Ok (res, st') -> ttl_writes_only st st'.
Proof.
  intros redis ty name st res st' H. exact (LoadZoneRecords_at_ttl_only 2 redis ty name st res st' H).
Qed.

Lemma LoadZoneRecords_writes_only_ttl_keys_witness :
  exists res st',
    LoadZoneRecords rows_redis "NS" "example." store_ns = Ok (res, st')
    /\ ttl_writes_only store_ns st'.
Proof.
  destruct (LoadZoneRecords rows_redis "NS" "example." store_ns)
    as [[res st']| |] eqn:E; [|vm_compute in E; discriminate E..].
  exists res, st'. split; [reflexivity|].
  exact (LoadZoneRecords_writes_only_ttl_keys rows_redis "NS" "example." store_ns res st' E).
Defined.

(** X14: a successfully parsed NS row gives one NS answer per host field,
    in order, every host being fully qualified; each answer is owned by the
    record name, has class IN and the TTL of the row's first field. *)
Theorem parse_NS_hosts : forall name rData glue st answers extras st',
  parseRecordValuesFromString "NS" name rData glue st = Ok ((answers, extras), st') ->
  Forall (fun h => IsFqdn h = true) (skipn 3 (Fields rData))
  /\ map Data answers = map RNS (skipn 3 (Fields rData))
  /\ exists ttl, Atoi (nth 0 (Fields rData) "") = Some ttl
     /\ Forall (fun r => Hdr r = mkHdr name TypeNS ClassINET (uint32 ttl)) answers.
Proof.
  intros name rData glue st answers extras st' H.
  unfold parseRecordValuesFromString in H. cbv zeta in H.
  destruct (_ <? 4)%nat; [discriminate H|]. destruct (negb _); [discriminate H|].
  destruct (Atoi (nth 0 (Fields rData) "")) as [ttl|]; [|discriminate H].
  change (String.eqb "NS" "A") with false in H. rewrite String.eqb_refl in H. cbv iota in H.
  destruct (parseNS_shape _ _ _ _ _ _ _ _ H) as [F [Md Hh]].
  split; [exact F|]. split; [exact Md|]. exists ttl. split; [reflexivity|exact Hh].
Qed.

Lemma parse_NS_hosts_witness :
  exists answers extras st',
    parseRecordValuesFromString "NS" "example." "300 IN NS ns1.example."
      (getAdditionalRecords (LoadZoneRecords_at 1 rows_redis)) store_ns
    = Ok ((answers, extras), st')
    /\ Forall (fun h => IsFqdn h = true) (skipn 3 (Fields "300 IN NS ns1.example."))
    /\ map Data answers = map RNS (skipn 3 (Fields "300 IN NS ns1.example."))
    /\ exists ttl, Atoi (nth 0 (Fields "300 IN NS ns1.example.") "") = Some ttl
       /\ Forall (fun r => Hdr r = mkHdr "example." TypeNS ClassINET (uint32 ttl)) answers.
Proof.
  destruct (parseRecordValuesFromString "NS" "example." "300 IN NS ns1.example."
              (getAdditionalRecords (LoadZoneRecords_at 1 rows_redis)) store_ns)
    as [[[ans ext] st']| |] eqn:E; [|vm_compute in E; discriminate E..].
  exists ans, ext, st'. split; [reflexivity|].
  exact (parse_NS_hosts "example." "300 IN NS ns1.example."
           (getAdditionalRecords (LoadZoneRecords_at 1 rows_redis)) store_ns ans ext st' E).
Defined.

(** X15: when the backend answers [KEYS prefix*suffix] with keys of the
    form [prefix ++ zone ++ suffix], [LoadAllZoneNames] returns exactly the
    zone names, in the order of the reply. *)
Theorem LoadAllZoneNames_strips : forall redis conn zs,
  Agg.Do conn ["KEYS"; keyPrefix redis ++ "*" ++ keySuffix redis]
  = Agg.DoOk (Agg.RArr (map (fun z => Agg.RBulk (keyPrefix redis ++ z ++ keySuffix redis)) zs)) ->
  LoadAllZoneNames redis conn = Ok zs.
Proof.
  intros redis conn zs H. unfold LoadAllZoneNames. rewrite H. cbn [Agg.Strings].
  rewrite strings_elems_map. f_equal. clear H.
  induction zs as [|z zs IH]; [reflexivity|].
  cbn [map]. rewrite TrimPrefix_app, TrimSuffix_app, IH. reflexivity.
Qed.

Lemma LoadAllZoneNames_strips_witness :
  Agg.Do keys_conn ["KEYS"; keyPrefix rows_keys_redis ++ "*" ++ keySuffix rows_keys_redis]
  = Agg.DoOk (Agg.RArr (map (fun z => Agg.RBulk (keyPrefix rows_keys_redis ++ z
                                                  ++ keySuffix rows_keys_redis)) ["a."; "b."]))
  /\ LoadAllZoneNames rows_keys_redis keys_conn = Ok ["a."; "b."].
Proof.
  assert (H : Agg.Do keys_conn ["KEYS"; keyPrefix rows_keys_redis ++ "*" ++ keySuffix rows_keys_redis]
              = Agg.DoOk (Agg.RArr (map (fun z => Agg.RBulk (keyPrefix rows_keys_redis ++ z
                                                  ++ keySuffix rows_keys_redis)) ["a."; "b."])))
    by reflexivity.
  split; [exact H|]. exact (LoadAllZoneNames_strips rows_keys_redis keys_conn ["a."; "b."] H).
Defined.

(** X16: whatever setters are called on a configuration made by [New],
    the options [Connect] dials with never carry a user name: [SetUsername]
    has no effect on the caller's configuration. *)
Theorem Connect_never_sends_username : forall zone calls,
  existsb is_username_option (Setup.dialOptions (fold_left Setup.call calls (Setup.New zone)))
  = false.
Proof.
  intros zone calls. unfold Setup.dialOptions. rewrite fold_call_username.
  cbn [Setup.username Setup.New String.eqb]. rewrite !existsb_app.
  repeat match goal with |- context [if ?b then _ else _] => destruct b end; reflexivity.
Qed.
